(** * MinifyKit: a shallow embedding of the minification engine

    The development follows the layout of the Python package:
    - Python's [str] builtins and the [re] module, as far as the package calls them;
    - [minifykit.core.actions] (basic actions, composite, factory);
    - [minifykit.core.languages] (the language minifiers and the custom one);
    - [minifykit.file] and [minifykit.project] (jobs and the project walker).

    Definitions come first; the properties are proved in the second half. *)

From Stdlib Require Import String Ascii.
From Stdlib Require Import List NArith Arith Bool Lia.
Import ListNotations.

Set Implicit Arguments.
Set Warnings "-register-all".

(** ** Python strings

    A Python [str] is a sequence of Unicode code points. *)

Definition char := N.
Definition str := list char.

(** A Rocq string literal read as a [str] (one code point per character). *)
Definition py (s : string) : str := map N_of_ascii (list_ascii_of_string s).

Definition NL : char := 10%N.
Definition SPACE : char := 32%N.

(** A text given by its lines, with a newline between them. *)
Definition text (lines : list string) : str :=
  concat (map (fun l => match l with
                        | (true, s) => py s
                        | (false, s) => NL :: py s
                        end)
              (combine (map (Nat.eqb 0) (seq 0 (length lines))) lines)).

Definition str_eqb (a b : str) : bool :=
  if list_eq_dec N.eq_dec a b then true else false.

(** [str.isspace] on one character, which is also what [\s] matches in a
    [str] pattern and what [str.strip()] removes. *)
Definition isspace (c : char) : bool :=
  ((9 <=? c) && (c <=? 13) || (28 <=? c) && (c <=? 32)
   || (c =? 133) || (c =? 160) || (c =? 5760)
   || (8192 <=? c) && (c <=? 8202)
   || (c =? 8232) || (c =? 8233) || (c =? 8239) || (c =? 8287)
   || (c =? 12288))%N.

Fixpoint lstrip (s : str) : str :=
  match s with
  | c :: s' => if isspace c then lstrip s' else s
  | [] => []
  end.

Definition rstrip (s : str) : str := rev (lstrip (rev s)).

(** [s.strip()] *)
Definition strip (s : str) : str := rstrip (lstrip s).

(** [s.split(sep)] for a one-character separator: never an empty list. *)
Fixpoint split (sep : char) (s : str) : list str :=
  match s with
  | [] => [[]]
  | c :: s' =>
      if (c =? sep)%N then [] :: split sep s'
      else match split sep s' with
           | l :: ls => (c :: l) :: ls
           | [] => [[c]]
           end
  end.

(** [sep.join(l)] *)
Fixpoint join (sep : str) (l : list str) : str :=
  match l with
  | [] => []
  | [x] => x
  | x :: rest => x ++ sep ++ join sep rest
  end.

Fixpoint startswith (s prefix : str) : bool :=
  match prefix, s with
  | [], _ => true
  | p :: prefix', c :: s' => (c =? p)%N && startswith s' prefix'
  | _ :: _, [] => false
  end.

(** [s.endswith(suffix)] *)
Definition endswith (s suffix : str) : bool :=
  (length suffix <=? length s)
  && str_eqb (skipn (length s - length suffix) s) suffix.

(** The slice [s[:-1]]. *)
Definition but_last (s : str) : str := firstn (length s - 1) s.

(** [needle in s] for strings. *)
Fixpoint contains (s needle : str) : bool :=
  startswith s needle
  || match s with
     | [] => false
     | _ :: s' => contains s' needle
     end.

(** Truthiness of a string: [if s:]. *)
Definition truthy (s : str) : bool :=
  match s with [] => false | _ :: _ => true end.

(** [enumerate(l)] *)
Definition enumerate (A : Type) (l : list A) : list (nat * A) :=
  combine (seq 0 (length l)) l.

(** ** Exceptions *)

Inductive exn :=
| re_error                       (* re.error *)
| TypeError
| ValueError (msg : str)
| FileNotFoundError
| UnicodeDecodeError
| UnicodeEncodeError
| PermissionError
| OSError.

Inductive result (A : Type) :=
| Ok (a : A)
| Raise (e : exn).

Arguments Ok {A} a.
Arguments Raise {A} e.

Definition bind (A B : Type) (m : result A) (k : A -> result B) : result B :=
  match m with
  | Ok a => k a
  | Raise e => Raise e
  end.

Notation "x <- m ;; k" := (bind m (fun x => k))
  (at level 61, m at next level, right associativity).

(** ** The [re] module

    The patterns of the package are written in the following fragment of
    Python's pattern language: literals, sets, [\s], [.], the anchor [$],
    unbounded repetition of a one-character item (greedy or lazy),
    sequence, alternation and capture groups.  The engine is a backtracking
    matcher that tries alternatives in Python's order. *)

Record flags := { DOTALL : bool; MULTILINE : bool }.

Definition NOFLAG : flags := {| DOTALL := false; MULTILINE := false |}.
Definition RE_DOTALL : flags := {| DOTALL := true; MULTILINE := false |}.
Definition RE_MULTILINE : flags := {| DOTALL := false; MULTILINE := true |}.

(** One-character items. *)
Inductive atom :=
| ALit (c : char)          (* a literal character *)
| ASet (cs : list char)    (* [...] *)
| ASpace                   (* \s *)
| ADot.                    (* . *)

Inductive regex :=
| Eps                                        (* the empty pattern *)
| Chr (a : atom)
| Rep (a : atom) (min : nat) (greedy : bool) (* a*, a+, a*?, a+? *)
| Eol                                        (* $ *)
| Seq (r1 r2 : regex)
| Alt (r1 r2 : regex)                        (* r1|r2 *)
| Grp (n : nat) (r : regex).                 (* the n-th capture group *)

Definition atom_ok (fl : flags) (a : atom) (c : char) : bool :=
  match a with
  | ALit x => (c =? x)%N
  | ASet cs => existsb (N.eqb c) cs
  | ASpace => isspace c
  | ADot => DOTALL fl || negb (c =? NL)%N
  end.

(** [$]: at the end, or before a newline that ends the string; with
    MULTILINE before any newline. *)
Definition at_eol (fl : flags) (s : str) : bool :=
  match s with
  | [] => true
  | c :: rest =>
      (c =? NL)%N && (MULTILINE fl || match rest with [] => true | _ => false end)
  end.

Definition captures := list (nat * str).

Section Matcher.
Variable A : Type.

(** Where a repetition may stop: once the minimum has been reached. *)
Definition stop_here (min : nat) (s : str) (k : str -> option A) : option A :=
  match min with
  | 0 => k s
  | S _ => None
  end.

(** Greedy repetition: as many as possible first, then one fewer. *)
Fixpoint rep_greedy (p : char -> bool) (min : nat) (s : str)
    (k : str -> option A) : option A :=
  match s with
  | c :: s' =>
      if p c then
        match rep_greedy p (pred min) s' k with
        | Some x => Some x
        | None => stop_here min s k
        end
      else stop_here min s k
  | [] => stop_here min s k
  end.

(** Lazy repetition: as few as possible first, then one more. *)
Fixpoint rep_lazy (p : char -> bool) (min : nat) (s : str)
    (k : str -> option A) : option A :=
  match min with
  | 0 =>
      match k s with
      | Some x => Some x
      | None =>
          match s with
          | c :: s' => if p c then rep_lazy p 0 s' k else None
          | [] => None
          end
      end
  | S m =>
      match s with
      | c :: s' => if p c then rep_lazy p m s' k else None
      | [] => None
      end
  end.

(** The matcher in continuation-passing style: [s] is what is left of the
    string, [k] matches the rest of the pattern. *)
Fixpoint rmatch (fl : flags) (r : regex) (s : str) (caps : captures)
    (k : str -> captures -> option A) : option A :=
  match r with
  | Eps => k s caps
  | Chr a =>
      match s with
      | c :: s' => if atom_ok fl a c then k s' caps else None
      | [] => None
      end
  | Rep a min greedy =>
      (if greedy then rep_greedy else rep_lazy)
        (atom_ok fl a) min s (fun s' => k s' caps)
  | Eol => if at_eol fl s then k s caps else None
  | Seq r1 r2 => rmatch fl r1 s caps (fun s' caps' => rmatch fl r2 s' caps' k)
  | Alt r1 r2 =>
      match rmatch fl r1 s caps k with
      | Some x => Some x
      | None => rmatch fl r2 s caps k
      end
  | Grp n r1 =>
      rmatch fl r1 s caps
        (fun s' caps' => k s' ((n, firstn (length s - length s') s) :: caps'))
  end.
End Matcher.

(** A match found at the head of a string: how many characters it spans
    and what its groups captured. *)
Record Match := { m_len : nat; m_caps : captures }.

(** One attempt at the current position.  With [must_advance] an empty
    match is refused and the matcher backtracks for another one. *)
Definition match_here (fl : flags) (r : regex) (s : str) (must_advance : bool)
    : option Match :=
  rmatch fl r s []
    (fun s' caps =>
       if must_advance && (length s' =? length s) then None
       else Some {| m_len := length s - length s'; m_caps := caps |}).

(** [pattern.groups] *)
Fixpoint groups (r : regex) : nat :=
  match r with
  | Seq r1 r2 | Alt r1 r2 => groups r1 + groups r2
  | Grp _ r1 => S (groups r1)
  | _ => 0
  end.

(** A replacement template: literal text and group references [\n]. *)
Inductive titem :=
| TLit (c : char)
| TGroup (n : nat).

Definition template := list titem.

Fixpoint lookup_group (n : nat) (caps : captures) : str :=
  match caps with
  | [] => []                     (* a group that took no part is empty *)
  | (m, v) :: rest => if m =? n then v else lookup_group n rest
  end.

Definition expand (repl : template) (s : str) (m : Match) : str :=
  flat_map (fun it =>
              match it with
              | TLit c => [c]
              | TGroup 0 => firstn (m_len m) s
              | TGroup n => lookup_group n (m_caps m)
              end) repl.

(** A template that names a group the pattern does not have is refused
    when the template is compiled, before any search. *)
Definition template_ok (r : regex) (repl : template) : bool :=
  forallb (fun it => match it with
                     | TLit _ => true
                     | TGroup n => n <=? groups r
                     end) repl.

(** The substitution loop of [re.sub] (Python 3.7 and later), walking the
    string once.  [skip] counts the characters of the current match still
    to be dropped.  After an empty match the search resumes at the same
    place and must advance; a position where nothing matches is copied. *)
Fixpoint subx (fl : flags) (r : regex) (repl : template) (s : str)
    (skip : nat) : str :=
  match s with
  | [] =>
      match skip with
      | S _ => []
      | 0 =>
          match match_here fl r [] false with
          | None => []
          | Some m =>
              expand repl [] m ++
              match match_here fl r [] true with
              | Some m' => expand repl [] m'
              | None => []
              end
          end
      end
  | c :: s' =>
      match skip with
      | S n => subx fl r repl s' n
      | 0 =>
          match match_here fl r s false with
          | None => c :: subx fl r repl s' 0
          | Some m =>
              expand repl s m ++
              match m_len m with
              | S n => subx fl r repl s' n
              | 0 =>
                  match match_here fl r s true with
                  | Some m' => expand repl s m' ++ subx fl r repl s' (pred (m_len m'))
                  | None => c :: subx fl r repl s' 0
                  end
              end
          end
      end
  end.

(** [re.sub(pattern, repl, string, flags=fl)] *)
Definition re_sub (pattern : regex) (repl : template) (string : str)
    (fl : flags) : result str :=
  if template_ok pattern repl then Ok (subx fl pattern repl string 0)
  else Raise re_error.

(** ** minifykit.core.actions.basic_actions *)

(** The pattern that matches the text [s] literally, followed by [k]. *)
Definition lit (s : string) (k : regex) : regex :=
  fold_right (fun c r => Seq (Chr (ALit c)) r) k (py s).

(** [r'\s+'] *)
Definition ws_plus : regex := Rep ASpace 1 true.

(** [r'\s*([...])\s*'] for the characters [cs] of the set. *)
Definition spaces_around (cs : string) : regex :=
  Seq (Rep ASpace 0 true) (Seq (Grp 1 (Chr (ASet (py cs)))) (Rep ASpace 0 true)).

(** The default list of [OperatorSpaceRemovalAction]:
    [r'\s*([()])\s*'], [r'\s*([{}])\s*'], [r'\s*([[\]])\s*'],
    [r'\s*([+%\-*/=<>!&|:,])\s*']. *)
Definition default_patterns : list regex :=
  [ spaces_around "()"; spaces_around "{}"; spaces_around "[]";
    spaces_around "+%-*/=<>!&|:," ].

(** The actions.  A pattern field holds the compiled form of the pattern
    string; [None] is Python's [None] (an empty pattern string is falsy as
    well and is skipped like [None]). *)
Inductive Action :=
| CommentRemovalAction (single_line_pattern multi_line_pattern : option regex)
| WhitespaceReductionAction (preserve_newlines : bool)
| EmptyLineRemovalAction
| OperatorSpaceRemovalAction (patterns : list regex)
| LineJoiningAction (separator : str)
| CompositeMinificationAction (actions : list Action)
| NamedAction (name : str) (action : Action)      (* the factory's wrapper *)
| UserAction (class_name : str) (apply : str -> result str).
                                   (* any other subclass of MinificationAction *)

(** [OperatorSpaceRemovalAction.__init__]: [patterns or [...]]. *)
Definition OperatorSpaceRemovalAction_init (patterns : option (list regex)) : Action :=
  match patterns with
  | Some (p :: ps) => OperatorSpaceRemovalAction (p :: ps)
  | _ => OperatorSpaceRemovalAction default_patterns
  end.

(** [CompositeMinificationAction.__init__]: [actions or []]. *)
Definition CompositeMinificationAction_init (actions : option (list Action)) : Action :=
  match actions with
  | Some (a :: rest) => CompositeMinificationAction (a :: rest)
  | _ => CompositeMinificationAction []
  end.

Fixpoint mapM (A B : Type) (f : A -> result B) (l : list A) : result (list B) :=
  match l with
  | [] => Ok []
  | x :: rest => y <- f x ;; ys <- mapM f rest ;; Ok (y :: ys)
  end.

(** [for x in l: acc = f(acc, x)] where [f] may raise. *)
Fixpoint foldM (A B : Type) (f : B -> A -> result B) (l : list A) (acc : B) : result B :=
  match l with
  | [] => Ok acc
  | x :: rest => acc' <- f acc x ;; foldM f rest acc'
  end.

Definition CommentRemovalAction_apply (single multi : option regex) (code : str)
    : result str :=
  code <- match multi with
          | Some p => re_sub p [] code RE_DOTALL
          | None => Ok code
          end ;;
  code <- match single with
          | Some p => re_sub p [] code RE_MULTILINE
          | None => Ok code
          end ;;
  Ok code.

Definition WhitespaceReductionAction_apply (preserve_newlines : bool) (code : str)
    : result str :=
  if preserve_newlines then
    let lines := split NL code in
    processed_lines <-
      mapM (fun line => r <- re_sub ws_plus [TLit SPACE] line NOFLAG ;; Ok (strip r))
           lines ;;
    Ok (join [NL] processed_lines)
  else
    r <- re_sub ws_plus [TLit SPACE] code NOFLAG ;; Ok (strip r).

Definition EmptyLineRemovalAction_apply (code : str) : str :=
  let lines := split NL code in
  let non_empty_lines := filter (fun line => truthy (strip line)) lines in
  join [NL] non_empty_lines.

Definition OperatorSpaceRemovalAction_apply (patterns : list regex) (code : str)
    : result str :=
  foldM (fun code pattern => re_sub pattern [TGroup 1] code NOFLAG) patterns code.

(** The body of the loop of [LineJoiningAction.apply]. *)
Definition line_joining_step (separator : str) (result : str) (il : nat * str) : str :=
  let (i, line) := il in
  let result := if 0 <? i then result ++ separator else result in
  if endswith line separator then result ++ but_last line
  else result ++ line.

Definition LineJoiningAction_apply (separator : str) (code : str) : str :=
  let lines := split NL code in
  let non_empty_lines :=
    map strip (filter (fun line => truthy (strip line)) lines) in
  fold_left (line_joining_step separator) (enumerate non_empty_lines) [].

(** [action.apply(code)] *)
Fixpoint apply (a : Action) (code : str) : result str :=
  match a with
  | CommentRemovalAction single multi => CommentRemovalAction_apply single multi code
  | WhitespaceReductionAction pn => WhitespaceReductionAction_apply pn code
  | EmptyLineRemovalAction => Ok (EmptyLineRemovalAction_apply code)
  | OperatorSpaceRemovalAction patterns => OperatorSpaceRemovalAction_apply patterns code
  | LineJoiningAction separator => Ok (LineJoiningAction_apply separator code)
  | CompositeMinificationAction actions =>
      (fix loop (l : list Action) (res : str) : result str :=
         match l with
         | [] => Ok res
         | action :: rest => res' <- apply action res ;; loop rest res'
         end) actions code
  | NamedAction _ action => apply action code
  | UserAction _ f => f code
  end.

(** [action.name] *)
Fixpoint name (a : Action) : str :=
  match a with
  | CommentRemovalAction _ _ => py "CommentRemovalAction"
  | WhitespaceReductionAction _ => py "WhitespaceReductionAction"
  | EmptyLineRemovalAction => py "EmptyLineRemovalAction"
  | OperatorSpaceRemovalAction _ => py "OperatorSpaceRemovalAction"
  | LineJoiningAction _ => py "LineJoiningAction"
  | CompositeMinificationAction actions =>
      py "Composite(" ++ join (py "+") (map name actions) ++ py ")"
  | NamedAction n _ => n
  | UserAction n _ => n
  end.

(** The six variants, each built by its constructor with the default
    arguments. *)
Inductive variant :=
| Comments | Whitespace | EmptyLines | Operators | LineJoining | Composite.

Definition default_action (v : variant) : Action :=
  match v with
  | Comments => CommentRemovalAction None None
  | Whitespace => WhitespaceReductionAction false
  | EmptyLines => EmptyLineRemovalAction
  | Operators => OperatorSpaceRemovalAction_init None
  | LineJoining => LineJoiningAction (py ";")
  | Composite => CompositeMinificationAction_init None
  end.

(** ** minifykit.core.actions.factory *)

(** The keyword arguments [**kwargs] of [create_action]: for each keyword
    of a constructor whether it was passed and with which value, and the
    names of any other keywords. *)
Record kwargs := {
  kw_preserve_newlines : option bool;
  kw_single_line_pattern : option (option regex);
  kw_multi_line_pattern : option (option regex);
  kw_patterns : option (option (list regex));
  kw_separator : option str;
  kw_other : list str
}.

Definition no_kwargs : kwargs :=
  {| kw_preserve_newlines := None; kw_single_line_pattern := None;
     kw_multi_line_pattern := None; kw_patterns := None;
     kw_separator := None; kw_other := [] |}.

Definition passed (A : Type) (o : option A) : bool :=
  match o with Some _ => true | None => false end.

Definition default (A : Type) (o : option A) (d : A) : A :=
  match o with Some v => v | None => d end.

Inductive action_class :=
| cls_WhitespaceReductionAction
| cls_CommentRemovalAction
| cls_EmptyLineRemovalAction
| cls_OperatorSpaceRemovalAction
| cls_LineJoiningAction.

Fixpoint dict_get (V : Type) (d : list (str * V)) (k : str) : option V :=
  match d with
  | [] => None
  | (k', v) :: rest => if str_eqb k' k then Some v else dict_get rest k
  end.

Definition action_classes : list (str * action_class) :=
  [ (py "whitespace", cls_WhitespaceReductionAction);
    (py "comments", cls_CommentRemovalAction);
    (py "empty_lines", cls_EmptyLineRemovalAction);
    (py "operators", cls_OperatorSpaceRemovalAction);
    (py "line_joining", cls_LineJoiningAction) ].

(** The call of the class with the keyword arguments: a keyword that the
    constructor does not have is a [TypeError]. *)
Definition construct (cls : action_class) (kw : kwargs) : result Action :=
  let pn := passed (kw_preserve_newlines kw) in
  let sl := passed (kw_single_line_pattern kw) in
  let ml := passed (kw_multi_line_pattern kw) in
  let pa := passed (kw_patterns kw) in
  let se := passed (kw_separator kw) in
  let ot := negb (length (kw_other kw) =? 0) in
  match cls with
  | cls_WhitespaceReductionAction =>
      if sl || ml || pa || se || ot then Raise TypeError
      else Ok (WhitespaceReductionAction (default (kw_preserve_newlines kw) false))
  | cls_CommentRemovalAction =>
      if pn || pa || se || ot then Raise TypeError
      else Ok (CommentRemovalAction (default (kw_single_line_pattern kw) None)
                                    (default (kw_multi_line_pattern kw) None))
  | cls_EmptyLineRemovalAction =>
      if pn || sl || ml || pa || se || ot then Raise TypeError
      else Ok EmptyLineRemovalAction
  | cls_OperatorSpaceRemovalAction =>
      if pn || sl || ml || se || ot then Raise TypeError
      else Ok (OperatorSpaceRemovalAction_init (default (kw_patterns kw) None))
  | cls_LineJoiningAction =>
      if pn || sl || ml || pa || ot then Raise TypeError
      else Ok (LineJoiningAction (default (kw_separator kw) (py ";")))
  end.

(** [create_action(action_type, name, **kwargs)] *)
Definition create_action (action_type : str) (name : option str) (kw : kwargs)
    : result Action :=
  match dict_get action_classes action_type with
  | None => Raise (ValueError (py "Unknown action type: " ++ action_type))
  | Some action_class =>
      action <- construct action_class kw ;;
      match name with
      | Some (c :: n) => Ok (NamedAction (c :: n) action)   (* if name: *)
      | _ => Ok action
      end
  end.

(** ** minifykit.core.languages *)

(** Objects have an identity.  Building an object takes the next free
    identity; only the identity of a minifier's composite is tracked. *)
Definition oid := nat.

Record object (A : Type) := { obj_id : oid; obj_val : A }.

Definition new (A : Type) (v : A) (next : oid) : object A * oid :=
  ({| obj_id := next; obj_val := v |}, S next).

(** The interface [LanguageMinifier]. *)
Module LanguageMinifier.
Record t := {
  name : str;
  file_extensions : list str;
  minify : str -> result str
}.
End LanguageMinifier.

(** Three quotes [q], anything (lazily), three quotes [q]. *)
Definition triple_quoted (q : char) : regex :=
  let qqq k := Seq (Chr (ALit q)) (Seq (Chr (ALit q)) (Seq (Chr (ALit q)) k)) in
  qqq (Seq (Rep ADot 0 false) (qqq Eps)).

(** [r'#.*$'] *)
Definition hash_comment : regex := lit "#" (Seq (Rep ADot 0 true) Eol).
(** The triple-quoted blocks of either quote style. *)
Definition docstrings : regex := Alt (triple_quoted 34%N) (triple_quoted 39%N).
(** [r'//.*$'] *)
Definition slash_comment : regex := lit "//" (Seq (Rep ADot 0 true) Eol).
(** [r'/\*.*?\*/'] *)
Definition block_comment : regex := lit "/*" (Seq (Rep ADot 0 false) (lit "*/" Eps)).
(** [r'<!--.*?-->'] *)
Definition html_comment : regex := lit "<!--" (Seq (Rep ADot 0 false) (lit "-->" Eps)).
(** [r'\/*.*?\*/|//.*']: the star after the escaped slash repeats the slash. *)
Definition html_secondary : regex :=
  Alt (Seq (Rep (ALit 47%N) 0 true) (Seq (Rep ADot 0 false) (lit "*/" Eps)))
      (lit "//" (Rep ADot 0 true)).

Module PythonMinifier.

Record t := {
  _preserve_newlines : bool;
  _preserve_docstrings : bool;
  _action : object Action
}.

Definition actions_for (preserve_newlines preserve_docstrings : bool) : list Action :=
  [ if preserve_docstrings
    then CommentRemovalAction (Some hash_comment) None
    else CommentRemovalAction (Some hash_comment) (Some docstrings) ]
  ++ [ WhitespaceReductionAction preserve_newlines ]
  ++ [ EmptyLineRemovalAction ]
  ++ (if negb preserve_newlines then [ OperatorSpaceRemovalAction_init None ] else []).

Definition _create_action (preserve_newlines preserve_docstrings : bool)
    : oid -> object Action * oid :=
  new (CompositeMinificationAction_init
         (Some (actions_for preserve_newlines preserve_docstrings))).

Definition init (preserve_newlines preserve_docstrings : bool) (next : oid) : t * oid :=
  let (a, next') := _create_action preserve_newlines preserve_docstrings next in
  ({| _preserve_newlines := preserve_newlines;
      _preserve_docstrings := preserve_docstrings;
      _action := a |}, next').

Definition set_preserve_newlines (self : t) (preserve : bool) (next : oid) : t * oid :=
  if negb (Bool.eqb (_preserve_newlines self) preserve) then
    let (a, next') := _create_action preserve (_preserve_docstrings self) next in
    ({| _preserve_newlines := preserve;
        _preserve_docstrings := _preserve_docstrings self;
        _action := a |}, next')
  else (self, next).

Definition set_preserve_docstrings (self : t) (preserve : bool) (next : oid) : t * oid :=
  if negb (Bool.eqb (_preserve_docstrings self) preserve) then
    let (a, next') := _create_action (_preserve_newlines self) preserve next in
    ({| _preserve_newlines := _preserve_newlines self;
        _preserve_docstrings := preserve;
        _action := a |}, next')
  else (self, next).

Definition minify (self : t) (code : str) : result str :=
  apply (obj_val (_action self)) code.

Definition as_minifier (self : t) : LanguageMinifier.t :=
  {| LanguageMinifier.name := py "python";
     LanguageMinifier.file_extensions := [py ".py"];
     LanguageMinifier.minify := minify self |}.

End PythonMinifier.

Module JavaScriptMinifier.

Record t := {
  _preserve_newlines : bool;
  _aggressive : bool;
  _action : object Action
}.

Definition actions_for (preserve_newlines aggressive : bool) : list Action :=
  [ CommentRemovalAction (Some slash_comment) (Some block_comment);
    WhitespaceReductionAction preserve_newlines;
    EmptyLineRemovalAction ]
  ++ (if aggressive || negb preserve_newlines
      then [ OperatorSpaceRemovalAction_init None ] else []).

Definition _create_action (preserve_newlines aggressive : bool)
    : oid -> object Action * oid :=
  new (CompositeMinificationAction_init (Some (actions_for preserve_newlines aggressive))).

Definition init (preserve_newlines aggressive : bool) (next : oid) : t * oid :=
  let (a, next') := _create_action preserve_newlines aggressive next in
  ({| _preserve_newlines := preserve_newlines;
      _aggressive := aggressive;
      _action := a |}, next').

Definition set_preserve_newlines (self : t) (preserve : bool) (next : oid) : t * oid :=
  if negb (Bool.eqb (_preserve_newlines self) preserve) then
    let (a, next') := _create_action preserve (_aggressive self) next in
    ({| _preserve_newlines := preserve;
        _aggressive := _aggressive self;
        _action := a |}, next')
  else (self, next).

Definition set_aggressive (self : t) (aggressive : bool) (next : oid) : t * oid :=
  if negb (Bool.eqb (_aggressive self) aggressive) then
    let (a, next') := _create_action (_preserve_newlines self) aggressive next in
    ({| _preserve_newlines := _preserve_newlines self;
        _aggressive := aggressive;
        _action := a |}, next')
  else (self, next).

Definition minify (self : t) (code : str) : result str :=
  apply (obj_val (_action self)) code.

Definition as_minifier (self : t) : LanguageMinifier.t :=
  {| LanguageMinifier.name := py "javascript";
     LanguageMinifier.file_extensions := [py ".js"];
     LanguageMinifier.minify := minify self |}.

End JavaScriptMinifier.

Module CSSMinifier.

Record t := { _action : object Action }.

Definition init (next : oid) : t * oid :=
  let (a, next') :=
    new (CompositeMinificationAction_init
           (Some [ CommentRemovalAction None (Some block_comment);
                   WhitespaceReductionAction false;
                   EmptyLineRemovalAction;
                   OperatorSpaceRemovalAction_init None ])) next in
  ({| _action := a |}, next').

Definition minify (self : t) (code : str) : result str :=
  apply (obj_val (_action self)) code.

Definition as_minifier (self : t) : LanguageMinifier.t :=
  {| LanguageMinifier.name := py "css";
     LanguageMinifier.file_extensions := [py ".css"];
     LanguageMinifier.minify := minify self |}.

End CSSMinifier.

Module HTMLMinifier.

Record t := {
  _preserve_newlines : bool;
  _action : object Action
}.

Definition actions_for (preserve_newlines : bool) : list Action :=
  [ CommentRemovalAction (Some html_secondary) (Some html_comment);
    WhitespaceReductionAction preserve_newlines;
    EmptyLineRemovalAction ].

Definition _create_action (preserve_newlines : bool) : oid -> object Action * oid :=
  new (CompositeMinificationAction_init (Some (actions_for preserve_newlines))).

Definition init (preserve_newlines : bool) (next : oid) : t * oid :=
  let (a, next') := _create_action preserve_newlines next in
  ({| _preserve_newlines := preserve_newlines; _action := a |}, next').

Definition set_preserve_newlines (self : t) (preserve : bool) (next : oid) : t * oid :=
  if negb (Bool.eqb (_preserve_newlines self) preserve) then
    let (a, next') := _create_action preserve next in
    ({| _preserve_newlines := preserve; _action := a |}, next')
  else (self, next).

Definition minify (self : t) (code : str) : result str :=
  apply (obj_val (_action self)) code.

Definition as_minifier (self : t) : LanguageMinifier.t :=
  {| LanguageMinifier.name := py "html";
     LanguageMinifier.file_extensions := [py ".html"; py ".htm"];
     LanguageMinifier.minify := minify self |}.

End HTMLMinifier.

(** *** create_custom_minifier

    The list of actions is a Python list: a mutable object that the caller
    and the minifier share.  The heap maps the address of a list to its
    current content. *)
Definition loc := nat.

Record heap := { lists : loc -> list Action; next_id : oid }.

(** [l.append(a)] on the list at address [l]. *)
Definition list_append (h : heap) (l : loc) (a : Action) : heap :=
  {| lists := fun l' => if l' =? l then lists h l ++ [a] else lists h l';
     next_id := next_id h |}.

(** [l.clear()] *)
Definition list_clear (h : heap) (l : loc) : heap :=
  {| lists := fun l' => if l' =? l then [] else lists h l';
     next_id := next_id h |}.

Module CustomMinifier.

(** The closure of [create_custom_minifier]: it keeps the three
    arguments, the action list by reference. *)
Record t := { name : str; extensions : list str; actions : loc }.

Definition create_custom_minifier (name : str) (extensions : list str) (actions : loc) : t :=
  {| name := name; extensions := extensions; actions := actions |}.

(** [minify] builds [CompositeMinificationAction(actions)] from the list as
    it is now, and applies it.  It returns the output, the composite it
    built and the heap after the call. *)
Definition minify (self : t) (code : str) (h : heap)
    : result str * object Action * heap :=
  let (action, next') :=
    new (CompositeMinificationAction_init (Some (lists h (actions self)))) (next_id h) in
  (apply (obj_val action) code, action, {| lists := lists h; next_id := next' |}).

End CustomMinifier.

(** ** The file system and the standard output *)

Inductive file :=
| Text (content : str)
| Undecodable.               (* bytes that are not UTF-8 *)

(** A file system: the files by path, with the text they hold as it is
    stored; the paths that may not be opened for writing; the paths whose
    writing has completed so far (latest first); the line separator of the
    platform ([os.linesep]); and the writes that fail once the file is open
    (a full disk, a device error), with what such a write leaves of the
    file. *)
Record filesystem := {
  files : str -> option file;
  read_only : str -> bool;
  written : list str;
  linesep : str;
  write_fault : str -> option file
}.

(** The file at [file_path] becomes [f]; nothing else changes. *)
Definition set_file (d : filesystem) (file_path : str) (f : file) : filesystem :=
  {| files := fun p => if str_eqb p file_path then Some f else files d p;
     read_only := read_only d;
     written := written d;
     linesep := linesep d;
     write_fault := write_fault d |}.

(** *** Text mode

    Both [open] calls of the package leave [newline] at its default.  On
    reading, [\r\n] and a [\r] alone are given as [\n]; on writing,
    each [\n] is stored as the line separator of the platform. *)
Definition CR : char := 13%N.

Fixpoint universal_newlines (s : str) : str :=
  match s with
  | [] => []
  | c :: s' =>
      if (c =? CR)%N then
        NL :: match s' with
              | d :: s'' => if (d =? NL)%N then universal_newlines s''
                            else universal_newlines s'
              | [] => []
              end
      else c :: universal_newlines s'
  end.

Definition to_linesep (linesep content : str) : str :=
  flat_map (fun c => if (c =? NL)%N then linesep else [c]) content.

(** The UTF-8 codec refuses the surrogates, U+D800 to U+DFFF. *)
Definition surrogate (c : char) : bool := ((55296 <=? c) && (c <=? 57343))%N.

Definition encodable (content : str) : bool := forallb (fun c => negb (surrogate c)) content.

(** What the job prints. *)
Inductive message :=
| NoChange (minified_path : str)
| Minified (minified_path : str)
| ErrorProcessing (file_path : str) (e : exn).

Record world := { fs : filesystem; stdout : list message }.

Definition print (m : message) (w : world) : world :=
  {| fs := fs w; stdout := stdout w ++ [m] |}.

(** ** minifykit.file.processor *)

Module FileProcessor.

(** [read_file]: the text of the file, read in text mode. *)
Definition read_file (d : filesystem) (file_path : str) : result str :=
  match files d file_path with
  | None => Raise FileNotFoundError
  | Some Undecodable => Raise UnicodeDecodeError
  | Some (Text content) => Ok (universal_newlines content)
  end.

(** [write_file]: what the call returns or raises, and the file system
    after it.  [open(file_path, 'w')] fails and changes nothing when the
    path may not be written; otherwise it creates the file or empties it,
    before anything is written.  [f.write(content)] encodes the whole text
    first, so that a text with a surrogate leaves the file empty; a write
    that fails later leaves what the device took. *)
Definition write_file (d : filesystem) (file_path content : str)
    : result unit * filesystem :=
  if read_only d file_path then (Raise PermissionError, d)
  else if negb (encodable content) then
    (Raise UnicodeEncodeError, set_file d file_path (Text []))
  else
    match write_fault d file_path with
    | Some partial => (Raise OSError, set_file d file_path partial)
    | None =>
        (Ok tt,
         {| files := fun p => if str_eqb p file_path
                              then Some (Text (to_linesep (linesep d) content))
                              else files d p;
            read_only := read_only d;
            written := file_path :: written d;
            linesep := linesep d;
            write_fault := write_fault d |})
    end.

Definition file_exists (d : filesystem) (file_path : str) : bool :=
  passed (files d file_path).

Section Paths.
Variable splitext : str -> str * str.        (* os.path.splitext *)

Definition get_minified_path (file_path suffix : str) : str :=
  let (base, ext) := splitext file_path in
  base ++ suffix ++ ext.
End Paths.

End FileProcessor.

(** ** minifykit.file.job *)

Module MinificationJob.

Record t := {
  file_path : str;
  minifier : LanguageMinifier.t;
  minified_path : str
}.

Definition init (splitext : str -> str * str) (file_path : str)
    (minifier : LanguageMinifier.t) (suffix : str) : t :=
  {| file_path := file_path; minifier := minifier;
     minified_path := FileProcessor.get_minified_path splitext file_path suffix |}.

(** [execute]: the value returned or the exception raised again, and the
    world after the call. *)
Definition execute (self : t) (w : world) : result bool * world :=
  (* up to the write no file changes: the text to write, or [None] when the
     minified file holds it already *)
  let to_write : result (option str) :=
    code <- FileProcessor.read_file (fs w) (file_path self) ;;
    minified_code <- LanguageMinifier.minify (minifier self) code ;;
    unchanged <-
      (if FileProcessor.file_exists (fs w) (minified_path self) then
         existing_code <- FileProcessor.read_file (fs w) (minified_path self) ;;
         Ok (str_eqb existing_code minified_code)
       else Ok false) ;;
    Ok (if unchanged : bool then None else Some minified_code)
  in
  let body : result bool * world :=
    match to_write with
    | Raise e => (Raise e, w)
    | Ok None => (Ok false, print (NoChange (minified_path self)) w)
    | Ok (Some minified_code) =>
        match FileProcessor.write_file (fs w) (minified_path self) minified_code with
        | (Ok _, d) =>
            (Ok true,
             print (Minified (minified_path self)) {| fs := d; stdout := stdout w |})
        | (Raise e, d) => (Raise e, {| fs := d; stdout := stdout w |})
        end
    end
  in
  (* [except Exception as e: print(...); raise] *)
  match body with
  | (Raise e, w') => (Raise e, print (ErrorProcessing (file_path self) e) w')
  | (Ok b, w') => (Ok b, w')
  end.

End MinificationJob.

(** ** minifykit.project.registry *)

(** [d[k] = v] on a dict kept in insertion order. *)
Fixpoint dict_set (V : Type) (d : list (str * V)) (k : str) (v : V) : list (str * V) :=
  match d with
  | [] => [(k, v)]
  | (k', v') :: rest =>
      if str_eqb k' k then (k', v) :: rest else (k', v') :: dict_set rest k v
  end.

Module MinifierRegistry.
Section Registry.
Variable lower : str -> str.                  (* str.lower *)

Record t := {
  _minifiers : list (str * LanguageMinifier.t);
  _extension_map : list (str * LanguageMinifier.t)
}.

Definition init : t := {| _minifiers := []; _extension_map := [] |}.

Definition register_minifier (self : t) (minifier : LanguageMinifier.t) : t :=
  {| _minifiers :=
       dict_set (_minifiers self) (lower (LanguageMinifier.name minifier)) minifier;
     _extension_map :=
       fold_left (fun m ext => dict_set m (lower ext) minifier)
                 (LanguageMinifier.file_extensions minifier) (_extension_map self) |}.

Definition get_minifier_by_name (self : t) (name : str) : option LanguageMinifier.t :=
  dict_get (_minifiers self) (lower name).

Definition get_minifier_for_extension (self : t) (extension : str)
    : option LanguageMinifier.t :=
  let extension :=
    if negb (startswith extension (py ".")) then py "." ++ extension else extension in
  dict_get (_extension_map self) (lower extension).

Definition get_supported_extensions (self : t) : list str :=
  map fst (_extension_map self).

End Registry.
End MinifierRegistry.

(** ** minifykit.project.minify *)

Module ProjectMinifier.
Section Project.
Variable lower : str -> str.                  (* str.lower *)
Variable splitext : str -> str * str.         (* os.path.splitext *)
Variable path_join : str -> str -> str.       (* os.path.join *)

Record t := {
  minifier_registry : MinifierRegistry.t;
  files_to_skip : list str
}.

Definition init (minifier_registry : MinifierRegistry.t)
    (files_to_skip : option (list str)) : t :=
  {| minifier_registry := minifier_registry;
     files_to_skip := match files_to_skip with
                      | Some (x :: l) => x :: l
                      | _ => [py "__pycache__"]
                      end |}.

(** A set of strings, by its elements. *)
Definition mem (x : str) (s : list str) : bool := existsb (str_eqb x) s.

Definition _get_extensions_to_process (self : t)
    (languages extensions : option (list str)) : list str :=
  let from_languages :=
    flat_map (fun file_type =>
                match MinifierRegistry.get_minifier_by_name lower
                        (minifier_registry self) file_type with
                | Some minifier => LanguageMinifier.file_extensions minifier
                | None => []
                end) (default languages []) in
  let from_extensions :=
    map (fun ext =>
           lower (if negb (startswith ext (py ".")) then py "." ++ ext else ext))
        (default extensions []) in
  match from_languages ++ from_extensions with
  | [] => MinifierRegistry.get_supported_extensions (minifier_registry self)
  | x :: l => x :: l
  end.

(** The counters and the world, as the loops of [minify_project] carry them. *)
Record state := { processed : nat; skipped : nat; the_world : world }.

(** The body of the loop over the file names of one directory. *)
Definition visit_file (self : t) (extensions_to_process : list str) (suffix : str)
    (foldername : str) (st : state) (filename : str) : state :=
  let file_path := path_join foldername filename in
  let file_ext := lower (snd (splitext filename)) in
  if contains filename (py ".min.") then
    {| processed := processed st; skipped := skipped st + 1; the_world := the_world st |}
  else if mem file_ext extensions_to_process then
    match MinifierRegistry.get_minifier_for_extension lower
            (minifier_registry self) file_ext with
    | Some minifier =>
        let job := MinificationJob.init splitext file_path minifier suffix in
        match MinificationJob.execute job (the_world st) with
        | (Ok true, w) =>
            {| processed := processed st + 1; skipped := skipped st; the_world := w |}
        | (_, w) =>
            {| processed := processed st; skipped := skipped st; the_world := w |}
        end
    | None => st
    end
  else st.

(** A directory is left out when its path contains one of the strings to
    skip. *)
Definition skip_this_dir (to_skip : list str) (foldername : str) : bool :=
  existsb (contains foldername) to_skip.

(** [self.files_to_skip.extend(files_to_skip)], under [if files_to_skip:].
    The list of the object is changed in place, so the object after the
    call is part of what the call gives, and a later call starts from it.
    (The list is also the caller's when the constructor was given one that
    is not empty; only the object's view of it is kept here.) *)
Definition extend_files_to_skip (self : t) (files_to_skip' : option (list str)) : t :=
  match files_to_skip' with
  | Some (x :: l) =>
      {| minifier_registry := minifier_registry self;
         files_to_skip := files_to_skip self ++ x :: l |}
  | _ => self
  end.

(** [minify_project]: the two counters, the object and the world after the
    call.  [walk] is what [os.walk(root_dir)] yields: for each directory its
    path, its subdirectories and its file names. *)
Definition minify_project (self : t) (walk : list (str * list str * list str))
    (languages extensions : option (list str)) (suffix : str)
    (files_to_skip' : option (list str)) (w : world) : nat * nat * t * world :=
  let self := extend_files_to_skip self files_to_skip' in
  let extensions_to_process := _get_extensions_to_process self languages extensions in
  let final :=
    fold_left
      (fun st entry =>
         let '(foldername, subfolders, filenames) := entry in
         if skip_this_dir (files_to_skip self) foldername then st
         else fold_left (visit_file self extensions_to_process suffix foldername)
                        filenames st)
      walk {| processed := 0; skipped := 0; the_world := w |} in
  (processed final, skipped final, self, the_world final).

End Project.
End ProjectMinifier.

(** *** Paths and case on a POSIX system, for names in ASCII *)

Fixpoint rfind_from (c : char) (p : str) (i : nat) (found : option nat) : option nat :=
  match p with
  | [] => found
  | x :: p' => rfind_from c p' (S i) (if (x =? c)%N then Some i else found)
  end.

(** [p.rfind(c)], [None] for -1. *)
Definition rfind (c : char) (p : str) : option nat := rfind_from c p 0 None.

(** [posixpath.splitext]: the extension starts at the last dot of the last
    component, unless only dots precede it there. *)
Definition posix_splitext (p : str) : str * str :=
  let filenameIndex := match rfind 47%N p with Some i => S i | None => 0 end in
  match rfind 46%N p with
  | Some dotIndex =>
      if (filenameIndex <=? dotIndex)
         && existsb (fun c => negb (c =? 46)%N)
                    (firstn (dotIndex - filenameIndex) (skipn filenameIndex p))
      then (firstn dotIndex p, skipn dotIndex p)
      else (p, [])
  | None => (p, [])
  end.

(** [posixpath.join(a, b)] *)
Definition posix_join (a b : str) : str :=
  if startswith b (py "/") then b
  else if negb (truthy a) || endswith a (py "/") then a ++ b
  else a ++ py "/" ++ b.

(** [str.lower] on ASCII text. *)
Definition ascii_lower (s : str) : str :=
  map (fun c => if (65 <=? c)%N && (c <=? 90)%N then (c + 32)%N else c) s.

(** ** Auxiliary definitions for the properties *)

(** The number of leading characters of [s] that satisfy [p]. *)
Fixpoint span (p : char -> bool) (s : str) : nat :=
  match s with
  | c :: s' => if p c then S (span p s') else 0
  | [] => 0
  end.

(** [re.search]: the leftmost position where the pattern matches. *)
Fixpoint search (fl : flags) (r : regex) (s : str) : option (nat * Match) :=
  match match_here fl r s false with
  | Some m => Some (0, m)
  | None =>
      match s with
      | [] => None
      | _ :: s' =>
          match search fl r s' with
          | Some (i, m) => Some (S i, m)
          | None => None
          end
      end
  end.

(** The actions whose [apply] has nothing that can raise: every pattern of
    an operator-space action has the group its template refers to, and no
    method written by the user is called. *)
Fixpoint cannot_raise (a : Action) : bool :=
  match a with
  | OperatorSpaceRemovalAction patterns => forallb (fun p => 1 <=? groups p) patterns
  | CompositeMinificationAction actions => forallb cannot_raise actions
  | NamedAction _ a' => cannot_raise a'
  | UserAction _ _ => false
  | _ => true
  end.

(** *** Whitespace reduction in the words of the specification *)

(** Every run of whitespace becomes a single space.  [in_run] tells that
    the previous character was whitespace, so that the run has been
    replaced already. *)
Fixpoint collapse_runs (in_run : bool) (s : str) : str :=
  match s with
  | [] => []
  | c :: s' =>
      if isspace c then
        if in_run then collapse_runs true s' else SPACE :: collapse_runs true s'
      else c :: collapse_runs false s'
  end.

(** No two whitespace characters in a row. *)
Fixpoint single_spaced (s : str) : bool :=
  match s with
  | c :: s' =>
      match s' with
      | d :: _ => negb (isspace c && isspace d) && single_spaced s'
      | [] => true
      end
  | [] => true
  end.

(** The first character, when there is one, is not whitespace. *)
Definition starts_with_text (s : str) : Prop :=
  match s with
  | c :: _ => isspace c = false
  | [] => True
  end.

(** [out] is [s] trimmed: [s] without the whitespace at its two ends. *)
Definition trim_of (s out : str) : Prop :=
  exists l r,
    s = l ++ out ++ r
    /\ forallb isspace l = true /\ forallb isspace r = true
    /\ starts_with_text out /\ starts_with_text (rev out).

(** Lines put together again, a newline between two of them. *)
Fixpoint newline_join (lines : list str) : str :=
  match lines with
  | [] => []
  | line :: rest =>
      match rest with
      | [] => line
      | _ :: _ => line ++ NL :: newline_join rest
      end
  end.

(** [lines] are the lines of [t], the newlines being the delimiters. *)
Definition lines_of (t : str) (lines : list str) : Prop :=
  lines <> [] /\ Forall (fun line => ~ In NL line) lines /\ t = newline_join lines.

(** Whitespace reduction in the words of the specification.  With newlines
    preserved: the lines of the text, each with its whitespace runs
    collapsed and then trimmed, joined by newlines again.  Otherwise: the
    whole text with its whitespace runs collapsed, trimmed. *)
Definition spec_whitespace_reduction (preserve_newlines : bool) (t out : str) : Prop :=
  if preserve_newlines then
    exists lines outs,
      lines_of t lines
      /\ Forall2 (fun line o => trim_of (collapse_runs false line) o) lines outs
      /\ out = newline_join outs
  else
    trim_of (collapse_runs false t) out.

(** An optional pattern that is absent, or present and matching nowhere in
    the text [t] ([re.search] finds nothing). *)
Definition matches_nowhere (fl : flags) (pattern : option regex) (t : str) : bool :=
  match pattern with
  | None => true
  | Some r => negb (passed (search fl r t))
  end.

(** *** Line joining *)

(** The lines that [LineJoiningAction.apply] retains: the lines that are
    not empty once stripped, stripped. *)
Definition retained_lines (code : str) : list str :=
  map strip (filter (fun line => truthy (strip line)) (split NL code)).

(** What the loop appends for a retained line. *)
Definition drop_final (separator line : str) : str :=
  if endswith line separator then but_last line else line.

(** In the words of the specification: a line that ends with the separator
    loses that trailing separator. *)
Definition strip_separator (separator line : str) : str :=
  if endswith line separator then firstn (length line - length separator) line
  else line.

Definition spec_line_joining (separator : str) (code : str) : str :=
  join separator (map (strip_separator separator) (retained_lines code)).

(** *** The factory and the project walker *)

(** The five type tags of the factory. *)
Definition recognized (action_type : str) : Prop :=
  In action_type
     (map py ["whitespace"; "comments"; "empty_lines"; "operators"; "line_joining"]%string).

Definition is_minified (m : message) : bool :=
  match m with Minified _ => true | _ => false end.






(** *** The outcomes of a job

    What a job does, case by case: an error before the write, an output
    that is there already, a write that completes, a write that fails. *)
Inductive outcome (job : MinificationJob.t) (w : world) : result bool * world -> Prop :=
| outcome_error (e : exn) :
    outcome job w (Raise e, print (ErrorProcessing (MinificationJob.file_path job) e) w)
| outcome_no_change (code out : str) :
    FileProcessor.read_file (fs w) (MinificationJob.file_path job) = Ok code ->
    LanguageMinifier.minify (MinificationJob.minifier job) code = Ok out ->
    FileProcessor.read_file (fs w) (MinificationJob.minified_path job) = Ok out ->
    outcome job w (Ok false, print (NoChange (MinificationJob.minified_path job)) w)
| outcome_written (code out : str) (d : filesystem) :
    FileProcessor.read_file (fs w) (MinificationJob.file_path job) = Ok code ->
    LanguageMinifier.minify (MinificationJob.minifier job) code = Ok out ->
    FileProcessor.read_file (fs w) (MinificationJob.minified_path job) <> Ok out ->
    FileProcessor.write_file (fs w) (MinificationJob.minified_path job) out = (Ok tt, d) ->
    outcome job w (Ok true, print (Minified (MinificationJob.minified_path job))
                                  {| fs := d; stdout := stdout w |})
| outcome_write_failed (code out : str) (e : exn) (d : filesystem) :
    FileProcessor.read_file (fs w) (MinificationJob.file_path job) = Ok code ->
    LanguageMinifier.minify (MinificationJob.minifier job) code = Ok out ->
    FileProcessor.read_file (fs w) (MinificationJob.minified_path job) <> Ok out ->
    FileProcessor.write_file (fs w) (MinificationJob.minified_path job) out = (Raise e, d) ->
    outcome job w (Raise e, print (ErrorProcessing (MinificationJob.file_path job) e)
                                  {| fs := d; stdout := stdout w |}).

(** *** A small project

    One directory [p] with a script and its minified output, which has the
    content that the JavaScript minifier gives for the script. *)
Definition example_registry : MinifierRegistry.t :=
  MinifierRegistry.register_minifier ascii_lower MinifierRegistry.init
    (JavaScriptMinifier.as_minifier (fst (JavaScriptMinifier.init true false 0))).

Definition example_project : ProjectMinifier.t :=
  ProjectMinifier.init example_registry None.

Definition example_files : filesystem :=
  {| files := fun p =>
       if str_eqb p (py "p/a.js") then Some (Text (py "x = 1;"))
       else if str_eqb p (py "p/a.min.js") then Some (Text (py "x = 1;"))
       else None;
     read_only := fun _ => false;
     written := [];
     linesep := [NL];
     write_fault := fun _ => None |}.

Definition example_walk : list (str * list str * list str) :=
  [ (py "p", [], [py "a.js"; py "a.min.js"]) ].

(** ** Tactics *)

(** The second case of a job: nothing is written, the line printed is not
    [Minified] and the value is not [True]. *)
Ltac nothing_written := right; cbn; split; [discriminate | eauto].

(** A setter whose argument is the current value takes its second branch. *)
Ltac same_value setter := unfold setter; rewrite Bool.eqb_reflx; auto.

(** ** Further definitions *)

(** A line that is not blank: [if line.strip()]. *)
Definition not_blank (line : str) : bool := truthy (strip line).

(** Whitespace is normalized: no two whitespace characters in a row, and
    the only whitespace character is the space. *)
Definition normalized (s : str) : Prop :=
  single_spaced s = true /\ forall c, In c s -> isspace c = true -> c = SPACE.

(** The characters of a text that are not whitespace. *)
Definition text_of (s : str) : str := filter (fun c => negb (isspace c)) s.

(** Neither the first nor the last character is whitespace. *)
Definition trimmed (s : str) : Prop :=
  starts_with_text s /\ starts_with_text (rev s).

(** What whitespace reduction does to one line (or to the whole text). *)
Definition reduce (s : str) : str := strip (collapse_runs false s).

(** The characters that the default patterns of
    [OperatorSpaceRemovalAction] look for. *)
Definition operator_chars : str := py "(){}[]+%-*/=<>!&|:,".

Definition has_operator (code : str) : bool :=
  existsb (fun c => existsb (N.eqb c) operator_chars) code.

(** The type tag under which the factory keeps each class; the composite
    has none. *)
Definition type_tag (v : variant) : option str :=
  match v with
  | Whitespace => Some (py "whitespace")
  | Comments => Some (py "comments")
  | EmptyLines => Some (py "empty_lines")
  | Operators => Some (py "operators")
  | LineJoining => Some (py "line_joining")
  | Composite => None
  end.

(** *** The composite as an object

    The composite keeps the list it is given, not a copy: its field
    [actions] is the address of a list in the heap.  A list is an object
    and gets its address from the same counter as the other objects. *)
Module CompositeObject.

Record t := { actions : loc }.

(** A new, empty list. *)
Definition new_list (h : heap) : loc * heap :=
  (next_id h,
   {| lists := fun l => if l =? next_id h then [] else lists h l;
      next_id := S (next_id h) |}).

(** [__init__]: [self.actions = actions or []], where an empty list is
    falsy. *)
Definition init (actions : option loc) (h : heap) : t * heap :=
  match actions with
  | Some l =>
      match lists h l with
      | _ :: _ => ({| actions := l |}, h)
      | [] => let (l', h') := new_list h in ({| actions := l' |}, h')
      end
  | None => let (l', h') := new_list h in ({| actions := l' |}, h')
  end.

(** [add_action]: [self.actions.append(action)] *)
Definition add_action (self : t) (action : Action) (h : heap) : heap :=
  list_append h (actions self) action.

Definition apply (self : t) (code : str) (h : heap) : result str :=
  apply (CompositeMinificationAction (lists h (actions self))) code.

End CompositeObject.

(** *** Sequences of setter calls

    A minifier in use: built by its constructor, then any setter calls. *)
Inductive python_call :=
| PySetPreserveNewlines (preserve : bool)
| PySetPreserveDocstrings (preserve : bool).

Definition python_run (calls : list python_call) (st : PythonMinifier.t * oid)
    : PythonMinifier.t * oid :=
  fold_left (fun st call =>
               match call with
               | PySetPreserveNewlines b =>
                   PythonMinifier.set_preserve_newlines (fst st) b (snd st)
               | PySetPreserveDocstrings b =>
                   PythonMinifier.set_preserve_docstrings (fst st) b (snd st)
               end) calls st.

Inductive javascript_call :=
| JsSetPreserveNewlines (preserve : bool)
| JsSetAggressive (aggressive : bool).

Definition javascript_run (calls : list javascript_call) (st : JavaScriptMinifier.t * oid)
    : JavaScriptMinifier.t * oid :=
  fold_left (fun st call =>
               match call with
               | JsSetPreserveNewlines b =>
                   JavaScriptMinifier.set_preserve_newlines (fst st) b (snd st)
               | JsSetAggressive b =>
                   JavaScriptMinifier.set_aggressive (fst st) b (snd st)
               end) calls st.

(** The HTML minifier has one setter: a call is the value it is given. *)
Definition html_run (calls : list bool) (st : HTMLMinifier.t * oid) : HTMLMinifier.t * oid :=
  fold_left (fun st b => HTMLMinifier.set_preserve_newlines (fst st) b (snd st)) calls st.

(** The value a toggle has after the calls: the last one set, or the one
    of the constructor. *)
Definition last_set (A B : Type) (pick : A -> option B) (calls : list A) (initial : B) : B :=
  fold_left (fun v call => match pick call with Some b => b | None => v end) calls initial.

Definition python_newlines (call : python_call) : option bool :=
  match call with PySetPreserveNewlines b => Some b | _ => None end.

Definition python_docstrings (call : python_call) : option bool :=
  match call with PySetPreserveDocstrings b => Some b | _ => None end.

Definition javascript_newlines (call : javascript_call) : option bool :=
  match call with JsSetPreserveNewlines b => Some b | _ => None end.

Definition javascript_aggressive (call : javascript_call) : option bool :=
  match call with JsSetAggressive b => Some b | _ => None end.

(** *** A job on one script that has no minified output yet *)
Definition example_job : MinificationJob.t :=
  MinificationJob.init posix_splitext (py "p/a.js")
    (JavaScriptMinifier.as_minifier (fst (JavaScriptMinifier.init true false 0)))
    (py ".min").

Definition example_source_only : world :=
  {| fs := {| files := fun p => if str_eqb p (py "p/a.js")
                                then Some (Text (py "x  =  1;")) else None;
              read_only := fun _ => false;
              written := [];
              linesep := [NL];
              write_fault := fun _ => None |};
     stdout := [] |}.

(** *** The registry in use *)

(** [get_all_minifiers] *)
Definition get_all_minifiers (self : MinifierRegistry.t) : list LanguageMinifier.t :=
  map snd (MinifierRegistry._minifiers self).

(** A new registry, then the registration of each minifier of the list. *)
Definition registry_of (lower : str -> str) (minifiers : list LanguageMinifier.t)
    : MinifierRegistry.t :=
  fold_left (MinifierRegistry.register_minifier lower) minifiers MinifierRegistry.init.

(** An extension as [get_minifier_for_extension] reads it: with its dot. *)
Definition dotted (extension : str) : str :=
  if negb (startswith extension (py ".")) then py "." ++ extension else extension.

(** The files that [minify_project] may write: [q] is the minified path of
    a file of the walk that is in a directory not skipped, does not carry
    [.min.] and has an extension to process. *)
Definition output_of (lower : str -> str) (splitext : str -> str * str)
    (path_join : str -> str -> str) (to_skip exts : list str) (suffix : str)
    (walk : list (str * list str * list str)) (q : str) : Prop :=
  exists folder subfolders filenames filename,
    In (folder, subfolders, filenames) walk
    /\ In filename filenames
    /\ ProjectMinifier.skip_this_dir to_skip folder = false
    /\ contains filename (py ".min.") = false
    /\ ProjectMinifier.mem (lower (snd (splitext filename))) exts = true
    /\ q = FileProcessor.get_minified_path splitext (path_join folder filename) suffix.

(** What holds of the files while [minify_project] runs from the world
    [w0]: the paths written so far all satisfy [ok], and the files at the
    paths that do not satisfy it are as they were. *)
Definition only_written (ok : str -> Prop) (w0 : world) (st : ProjectMinifier.state) : Prop :=
  (exists paths,
      written (fs (ProjectMinifier.the_world st)) = paths ++ written (fs w0)
      /\ forall q, In q paths -> ok q)
  /\ (forall q, ~ ok q ->
                files (fs (ProjectMinifier.the_world st)) q = files (fs w0) q).

(** *** Cleaning: [delete_file] and [delete_minified_files] *)

(** [FileProcessor.delete_file]: [os.remove]. *)
Definition delete_file (d : filesystem) (file_path : str) : result filesystem :=
  match files d file_path with
  | None => Raise FileNotFoundError
  | Some _ =>
      if read_only d file_path then Raise PermissionError
      else Ok {| files := fun p => if str_eqb p file_path then None else files d p;
                 read_only := read_only d;
                 written := written d;
                 linesep := linesep d;
                 write_fault := write_fault d |}
  end.

(** What [delete_minified_files] prints for a file. *)
Inductive clean_message :=
| Deleted (file_path : str)
| ErrorDeleting (file_path : str) (e : exn).

Definition deleted_paths (printed : list clean_message) : list str :=
  flat_map (fun m => match m with Deleted p => [p] | ErrorDeleting _ _ => [] end) printed.

Record clean_state := {
  count : nat;
  disk : filesystem;
  printed : list clean_message
}.

Section Clean.
Variable lower : str -> str.                  (* str.lower *)
Variable splitext : str -> str * str.         (* os.path.splitext *)
Variable path_join : str -> str -> str.       (* os.path.join *)

(** The body of the loop over the file names of one directory. *)
Definition clean_file (suffix : str) (extensions : option (list str)) (foldername : str)
    (st : clean_state) (filename : str) : clean_state :=
  let file_path := path_join foldername filename in
  let file_ext := lower (snd (splitext filename)) in
  if contains filename suffix then
    if match extensions with
       | None => true
       | Some exts => ProjectMinifier.mem file_ext exts
       end
    then
      match delete_file (disk st) file_path with
      | Ok d =>
          {| count := count st + 1; disk := d;
             printed := printed st ++ [Deleted file_path] |}
      | Raise e =>
          {| count := count st; disk := disk st;
             printed := printed st ++ [ErrorDeleting file_path e] |}
      end
    else st
  else st.

(** [delete_minified_files]; [walk] is what [os.walk(root_dir)] yields.  No
    directory is left out here. *)
Definition delete_minified_files (walk : list (str * list str * list str))
    (suffix : str) (extensions : option (list str)) (d : filesystem) : clean_state :=
  fold_left
    (fun st entry =>
       let '(foldername, subfolders, filenames) := entry in
       fold_left (clean_file suffix extensions foldername) filenames st)
    walk {| count := 0; disk := d; printed := [] |}.

End Clean.

(** What holds while [delete_minified_files] runs from the files [d0]: the
    count is the number of files deleted, they satisfy [ok] and exist no
    more, and the other files are as they were. *)
Definition cleaned (ok : str -> Prop) (d0 : filesystem) (st : clean_state) : Prop :=
  count st = length (deleted_paths (printed st))
  /\ (forall q, In q (deleted_paths (printed st)) -> ok q /\ files (disk st) q = None)
  /\ (forall q, ~ In q (deleted_paths (printed st)) -> files (disk st) q = files d0 q)
  /\ written (disk st) = written d0.

(** *** The command line: [parse_list_option] *)

Definition COMMA : char := 44%N.

Definition parse_list_option (value : str) : option (list str) :=
  if str_eqb value (py "all") then None
  else Some (map strip (split COMMA value)).

(** [subsequence a b]: [a] is [b] with some characters left out. *)
Inductive subsequence : str -> str -> Prop :=
| subsequence_nil : subsequence [] []
| subsequence_keep (c : char) (a b : str) : subsequence a b -> subsequence (c :: a) (c :: b)
| subsequence_drop (c : char) (a b : str) : subsequence a b -> subsequence a (c :: b).

(** * Properties *)

(** ** The result monad and Python's builtins *)

Lemma bind_assoc (A B C : Type) (m : result A) (f : A -> result B) (g : B -> result C) :
  bind (bind m f) g = bind m (fun a => bind (f a) g).
Proof. destruct m; reflexivity. Qed.

Lemma str_eqb_eq (a b : str) : str_eqb a b = true <-> a = b.
Proof.
  unfold str_eqb. destruct (list_eq_dec N.eq_dec a b); split; congruence.
Qed.

Lemma mapM_Ok (A B : Type) (f : A -> B) (l : list A) :
  mapM (fun x => Ok (f x)) l = Ok (map f l).
Proof.
  induction l as [|x l IH]; simpl; [reflexivity|]. rewrite IH. reflexivity.
Qed.

Lemma mapM_ext (A B : Type) (f g : A -> result B) (l : list A) :
  (forall x, f x = g x) -> mapM f l = mapM g l.
Proof.
  intro H. induction l as [|x l IH]; simpl; [reflexivity|]. rewrite H, IH. reflexivity.
Qed.

(** ** The matcher *)

Lemma span_le (p : char -> bool) (s : str) : span p s <= length s.
Proof. induction s as [|c s IH]; simpl; [lia|]. destruct (p c); simpl; lia. Qed.

(** Against a continuation that accepts everything, a greedy repetition
    takes the whole run, provided the run is long enough. *)
Lemma rep_greedy_total (A : Type) (p : char -> bool) (f : str -> A) (s : str) :
  forall min,
    rep_greedy p min s (fun s' => Some (f s')) =
    if min <=? span p s then Some (f (skipn (span p s) s)) else None.
Proof.
  induction s as [|c s IH]; intros [|m]; simpl; try reflexivity.
  - destruct (p c); simpl; [|reflexivity]. rewrite IH. reflexivity.
  - destruct (p c); simpl; [|reflexivity]. rewrite IH.
    destruct (m <=? span p s); reflexivity.
Qed.

(** A template without group references is accepted by every pattern, so
    the substitution cannot raise. *)
Lemma re_sub_literal (r : regex) (repl : template) (s : str) (fl : flags) :
  forallb (fun it => match it with TLit _ => true | TGroup _ => false end) repl = true ->
  re_sub r repl s fl = Ok (subx fl r repl s 0).
Proof.
  intro H. unfold re_sub.
  assert (E : template_ok r repl = true).
  { unfold template_ok. rewrite forallb_forall in *. intros it Hit.
    specialize (H it Hit). destruct it; [reflexivity | discriminate]. }
  rewrite E. reflexivity.
Qed.

Lemma subx_skip (fl : flags) (r : regex) (repl : template) :
  forall n s, n <= length s -> subx fl r repl s n = subx fl r repl (skipn n s) 0.
Proof.
  induction n as [|n IH]; intros s Hn; [reflexivity|].
  destruct s as [|c s]; simpl in Hn; [lia|].
  simpl. apply IH. lia.
Qed.

(** A pattern that matches nowhere leaves the string as it is. *)
Lemma subx_no_match (fl : flags) (r : regex) (repl : template) (s : str) :
  search fl r s = None -> subx fl r repl s 0 = s.
Proof.
  induction s as [|c s IH]; simpl; intro H.
  - destruct (match_here fl r [] false); [discriminate | reflexivity].
  - destruct (match_here fl r (c :: s) false); [discriminate|].
    destruct (search fl r s) as [[i m]|]; [discriminate|].
    rewrite IH; reflexivity.
Qed.

(** ** Actions: induction, and the actions that cannot raise *)

(** Induction on actions, with the induction hypothesis for every member
    of a composite. *)
Lemma Action_nested_ind (P : Action -> Prop) :
  (forall s m, P (CommentRemovalAction s m)) ->
  (forall b, P (WhitespaceReductionAction b)) ->
  P EmptyLineRemovalAction ->
  (forall ps, P (OperatorSpaceRemovalAction ps)) ->
  (forall sep, P (LineJoiningAction sep)) ->
  (forall l, Forall P l -> P (CompositeMinificationAction l)) ->
  (forall n a, P a -> P (NamedAction n a)) ->
  (forall n f, P (UserAction n f)) ->
  forall a, P a.
Proof.
  intros HComment HWhitespace HEmpty HOperator HJoining HComposite HNamed HUser.
  fix self 1. intros [s m|b| |ps|sep|l|n a|n f].
  - apply HComment.
  - apply HWhitespace.
  - exact HEmpty.
  - apply HOperator.
  - apply HJoining.
  - apply HComposite. induction l as [|x rest IH]; constructor; [apply self | exact IH].
  - apply HNamed, self.
  - apply HUser.
Qed.

(** The composite applies the head of its list and then the rest. *)
Lemma apply_composite_cons (a : Action) (l : list Action) (code : str) :
  apply (CompositeMinificationAction (a :: l)) code =
  bind (apply a code) (apply (CompositeMinificationAction l)).
Proof. reflexivity. Qed.

Lemma apply_composite_app (l1 l2 : list Action) :
  forall code,
    apply (CompositeMinificationAction (l1 ++ l2)) code =
    bind (apply (CompositeMinificationAction l1) code)
         (apply (CompositeMinificationAction l2)).
Proof.
  induction l1 as [|a l1 IH]; intro code; [reflexivity|].
  rewrite <- app_comm_cons, !apply_composite_cons.
  rewrite bind_assoc. destruct (apply a code) as [r|e]; simpl; [apply IH | reflexivity].
Qed.

Lemma operator_patterns_total (patterns : list regex) :
  forallb (fun p => 1 <=? groups p) patterns = true ->
  forall code, exists out, OperatorSpaceRemovalAction_apply patterns code = Ok out.
Proof.
  unfold OperatorSpaceRemovalAction_apply.
  induction patterns as [|p ps IH]; simpl; intros H code.
  - exists code. reflexivity.
  - apply andb_true_iff in H. destruct H as [Hp Hps].
    unfold re_sub at 1. simpl. rewrite Hp. simpl. apply IH, Hps.
Qed.

Lemma whitespace_total (pn : bool) (code : str) :
  exists out, WhitespaceReductionAction_apply pn code = Ok out.
Proof.
  unfold WhitespaceReductionAction_apply. destruct pn.
  - rewrite (mapM_ext _ (fun line => Ok (strip (subx NOFLAG ws_plus [TLit SPACE] line 0))))
      by reflexivity.
    rewrite mapM_Ok. simpl. eauto.
  - simpl. eauto.
Qed.

Lemma comment_removal_total (single multi : option regex) (code : str) :
  exists out, CommentRemovalAction_apply single multi code = Ok out.
Proof.
  unfold CommentRemovalAction_apply.
  destruct multi as [m|], single as [s|]; simpl; eauto.
Qed.

Lemma cannot_raise_total (a : Action) :
  cannot_raise a = true -> forall code, exists out, apply a code = Ok out.
Proof.
  induction a as [s m|b| |ps|sep|l IH|n a IH|n f] using Action_nested_ind;
    intros H code.
  - apply comment_removal_total.
  - apply whitespace_total.
  - simpl. eauto.
  - apply operator_patterns_total, H.
  - simpl. eauto.
  - revert code. induction IH as [|a l Ha _ IHl]; intro code.
    + exists code. reflexivity.
    + simpl in H. apply andb_true_iff in H. destruct H as [H1 H2].
      destruct (Ha H1 code) as [r Hr].
      destruct (IHl H2 r) as [out Hout].
      exists out. rewrite apply_composite_cons, Hr. exact Hout.
  - apply IH, H.
  - discriminate.
Qed.

(** C1. Each of the six kinds of action, built with the default arguments of
    its constructor, returns a string on every input, the empty one
    included: [apply] never raises. *)
Theorem default_actions_never_raise (v : variant) (code : str) :
  (exists out, apply (default_action v) code = Ok out)
  /\ (exists out, apply (default_action v) [] = Ok out).
Proof.
  split; apply cannot_raise_total; destruct v; reflexivity.
Qed.

(** The composites that the four language profiles build cannot raise
    either, whatever the toggles. *)
Lemma builtin_pipelines_never_raise (pn b : bool) (code : str) :
  (exists out, apply (CompositeMinificationAction (PythonMinifier.actions_for pn b)) code = Ok out)
  /\ (exists out, apply (CompositeMinificationAction (JavaScriptMinifier.actions_for pn b)) code = Ok out)
  /\ (exists out, apply (CompositeMinificationAction (HTMLMinifier.actions_for pn)) code = Ok out)
  /\ (exists out, apply (WhitespaceReductionAction pn) code = Ok out).
Proof.
  repeat split; apply cannot_raise_total; destruct pn, b; reflexivity.
Qed.

(** An operator-space action given patterns without a group raises when
    applied: its template refers to group 1. *)
Example groupless_pattern_raises :
  apply (OperatorSpaceRemovalAction_init
           (Some [Seq (Rep ASpace 0 true) (lit "=" (Rep ASpace 0 true))]))
        (py "a = b") = Raise re_error.
Proof. reflexivity. Qed.

(** C2. Applying the composite of [A; B] and then [C] is applying the
    composite of [A; B; C]; a composite hands the output of each action to
    the next one, and the composite of no action is the identity. *)
Theorem composite_associative (A B C : Action) (l : list Action) (t : str) :
  bind (apply (CompositeMinificationAction [A; B]) t) (apply C)
    = apply (CompositeMinificationAction [A; B; C]) t
  /\ bind (apply (CompositeMinificationAction [A; B]) t)
          (apply (CompositeMinificationAction [C]))
    = apply (CompositeMinificationAction [A; B; C]) t
  /\ apply (CompositeMinificationAction (A :: l)) t
    = bind (apply A t) (apply (CompositeMinificationAction l))
  /\ apply (CompositeMinificationAction []) t = Ok t
  /\ apply (CompositeMinificationAction_init None) t = Ok t
  /\ apply (CompositeMinificationAction_init (Some [])) t = Ok t.
Proof.
  assert (E : bind (apply (CompositeMinificationAction [A; B]) t)
                   (apply (CompositeMinificationAction [C]))
              = apply (CompositeMinificationAction [A; B; C]) t).
  { change [A; B; C] with ([A; B] ++ [C]). symmetry. apply apply_composite_app. }
  split; [|split; [exact E|repeat split]].
  rewrite <- E.
  destruct (apply (CompositeMinificationAction [A; B]) t) as [r|e]; simpl; [|reflexivity].
  destruct (apply C r); reflexivity.
Qed.

(** ** Whitespace reduction *)

(** [\s+] at the head of a string takes the whole run of whitespace
    there, and fails when there is none. *)
Lemma ws_plus_match (s : str) :
  match_here NOFLAG ws_plus s false =
  if 1 <=? span isspace s
  then Some {| m_len := span isspace s; m_caps := [] |}
  else None.
Proof.
  pose (f := fun s' : str => {| m_len := length s - length s'; m_caps := [] |}).
  transitivity (if 1 <=? span isspace s
                then Some (f (skipn (span isspace s) s)) else None).
  - exact (rep_greedy_total isspace f s 1).
  - destruct (1 <=? span isspace s); [|reflexivity]. unfold f.
    rewrite length_skipn. pose proof (span_le isspace s) as Hle.
    do 2 f_equal. lia.
Qed.

Lemma collapse_runs_in_run (s : str) :
  collapse_runs true s = collapse_runs false (skipn (span isspace s) s).
Proof.
  induction s as [|c s IH]; simpl; [reflexivity|].
  destruct (isspace c) eqn:E; simpl; [exact IH | rewrite E; reflexivity].
Qed.

(** Substituting a space for [\s+] collapses the runs; inside a run that
    is being skipped the loop is at the state [in_run]. *)
Lemma subx_ws_plus (s : str) :
  subx NOFLAG ws_plus [TLit SPACE] s 0 = collapse_runs false s
  /\ forall n, n <= span isspace s ->
       subx NOFLAG ws_plus [TLit SPACE] s n = collapse_runs false (skipn n s).
Proof.
  induction s as [|c s [IH0 IHn]].
  - split; [reflexivity|]. intros n Hn. simpl in Hn.
    assert (n = 0) by lia. subst n. reflexivity.
  - assert (H0 : subx NOFLAG ws_plus [TLit SPACE] (c :: s) 0
                 = collapse_runs false (c :: s)).
    { cbn [subx]. rewrite ws_plus_match. cbn [span collapse_runs].
      destruct (isspace c) eqn:E.
      - cbn [Nat.leb m_len expand flat_map app]. simpl.
        rewrite (IHn (span isspace s)) by lia.
        rewrite collapse_runs_in_run. reflexivity.
      - cbn [Nat.leb]. rewrite IH0. reflexivity. }
    split; [exact H0|].
    intros [|n] Hn; [exact H0|].
    cbn [span] in Hn. destruct (isspace c); [|lia].
    cbn [subx skipn]. apply IHn. lia.
Qed.

(** What collapsing the runs means: the text between the runs is kept,
    what stands for a run is one space, and no two whitespace characters
    follow each other. *)
Lemma collapse_runs_keeps_text (s : str) :
  forall b,
    filter (fun c => negb (isspace c)) (collapse_runs b s)
    = filter (fun c => negb (isspace c)) s.
Proof.
  induction s as [|c s IH]; intro b; simpl; [reflexivity|].
  destruct (isspace c) eqn:E.
  - destruct b; simpl; apply IH.
  - simpl. rewrite E. simpl. rewrite IH. reflexivity.
Qed.

Lemma collapse_runs_spaces (s : str) :
  forall b c, In c (collapse_runs b s) -> isspace c = true -> c = SPACE.
Proof.
  induction s as [|x s IH]; intros b c; simpl; [tauto|].
  destruct (isspace x) eqn:E.
  - destruct b; simpl; [apply IH|]. intros [<-|H]; [reflexivity | exact (IH _ _ H)].
  - simpl. intros [<-|H]; [congruence | exact (IH _ _ H)].
Qed.

Lemma collapse_runs_single_spaced (s : str) :
  forall b,
    single_spaced (collapse_runs b s) = true
    /\ (b = true -> starts_with_text (collapse_runs b s)).
Proof.
  induction s as [|x s IH]; intro b; [split; [reflexivity | intros; exact I]|].
  cbn [collapse_runs]. destruct (isspace x) eqn:E.
  - destruct b; [apply IH|].
    split; [|discriminate].
    destruct (IH true) as [H1 H2]. specialize (H2 eq_refl).
    cbn [single_spaced]. destruct (collapse_runs true s) as [|d rest]; [reflexivity|].
    simpl in H2. rewrite H2, andb_false_r. exact H1.
  - split; [|intros _; exact E].
    destruct (IH false) as [H1 _].
    cbn [single_spaced]. destruct (collapse_runs false s) as [|d rest]; [reflexivity|].
    rewrite E. exact H1.
Qed.

(** What trimming means: whitespace is taken from both ends, and what is
    left neither starts nor ends with whitespace. *)
Lemma lstrip_spec (s : str) :
  exists l, s = l ++ lstrip s /\ forallb isspace l = true /\ starts_with_text (lstrip s).
Proof.
  induction s as [|c s [l [H1 [H2 H3]]]].
  - exists []. repeat split.
  - simpl. destruct (isspace c) eqn:E.
    + exists (c :: l). simpl. rewrite E, H2, <- H1. auto.
    + exists []. simpl. auto.
Qed.

Lemma forallb_rev (f : char -> bool) (l : str) :
  forallb f l = true -> forallb f (rev l) = true.
Proof.
  rewrite !forallb_forall. intros H x Hx. apply H, in_rev, Hx.
Qed.

Lemma strip_spec (s : str) :
  exists l r,
    s = l ++ strip s ++ r
    /\ forallb isspace l = true /\ forallb isspace r = true
    /\ starts_with_text (strip s) /\ starts_with_text (rev (strip s)).
Proof.
  unfold strip, rstrip.
  destruct (lstrip_spec s) as [l [H1 [H2 H3]]].
  destruct (lstrip_spec (rev (lstrip s))) as [r [H4 [H5 H6]]].
  assert (E : lstrip s = rev (lstrip (rev (lstrip s))) ++ rev r).
  { rewrite <- rev_app_distr, <- H4, rev_involutive. reflexivity. }
  exists l, (rev r). repeat split.
  - rewrite <- E. exact H1.
  - exact H2.
  - apply forallb_rev, H5.
  - destruct (rev (lstrip (rev (lstrip s)))) as [|c rest] eqn:Er; [exact I|].
    rewrite E in H3. exact H3.
  - rewrite rev_involutive. exact H6.
Qed.

(** *** Lines *)

Lemma join_cons (sep x : str) (l : list str) :
  join sep (x :: l) = x ++ flat_map (fun y => sep ++ y) l.
Proof.
  revert x. induction l as [|y l IH]; intro x.
  - simpl. rewrite app_nil_r. reflexivity.
  - change (join sep (x :: y :: l)) with (x ++ sep ++ join sep (y :: l)).
    rewrite IH. simpl. rewrite <- app_assoc. reflexivity.
Qed.

Lemma split_not_nil (sep : char) (s : str) : split sep s <> [].
Proof.
  destruct s as [|c s]; simpl; [discriminate|].
  destruct (c =? sep)%N; [discriminate|]. destruct (split sep s); discriminate.
Qed.

(** Joining the lines of a text gives the text back. *)
Lemma join_split (sep : char) (s : str) : join [sep] (split sep s) = s.
Proof.
  induction s as [|c s IH]; [reflexivity|]. simpl.
  destruct (N.eqb_spec c sep) as [->|Hne].
  - pose proof (split_not_nil sep s) as Hnil.
    destruct (split sep s) as [|l ls]; [congruence|].
    change (join [sep] ([] :: l :: ls)) with ([] ++ [sep] ++ join [sep] (l :: ls)).
    rewrite IH. reflexivity.
  - destruct (split sep s) as [|l ls] eqn:E; [exfalso; exact (split_not_nil _ _ E)|].
    rewrite <- IH. rewrite !join_cons. reflexivity.
Qed.

Lemma split_lines_free (sep : char) (s : str) :
  Forall (fun line => ~ In sep line) (split sep s).
Proof.
  induction s as [|c s IH]; simpl; [constructor; [tauto | constructor]|].
  destruct (N.eqb_spec c sep) as [->|Hne].
  - constructor; [simpl; tauto | exact IH].
  - destruct (split sep s) as [|l ls]; [constructor; [simpl; intuition | constructor]|].
    inversion IH as [|? ? Hl Hls]; subst. constructor; [|exact Hls].
    simpl. intros [H|H]; [congruence | exact (Hl H)].
Qed.

Lemma split_free (sep : char) (x : str) : ~ In sep x -> split sep x = [x].
Proof.
  induction x as [|c x IH]; intro H; [reflexivity|]. simpl in *.
  destruct (N.eqb_spec c sep) as [->|Hne]; [tauto|].
  rewrite IH by tauto. reflexivity.
Qed.

Lemma split_app_sep (sep : char) (x rest : str) :
  ~ In sep x -> split sep (x ++ sep :: rest) = x :: split sep rest.
Proof.
  induction x as [|c x IH]; intro H; simpl.
  - rewrite N.eqb_refl. reflexivity.
  - simpl in H. destruct (N.eqb_spec c sep) as [->|Hne]; [tauto|].
    rewrite IH by tauto. reflexivity.
Qed.

(** Splitting a join of lines gives the lines back, when there is at least
    one line and no line holds the separator. *)
Lemma split_join (sep : char) (l : list str) :
  l <> [] -> Forall (fun line => ~ In sep line) l -> split sep (join [sep] l) = l.
Proof.
  induction l as [|x l IH]; intros Hne Hl; [congruence|].
  inversion Hl as [|? ? Hx Hrest]; subst.
  destruct l as [|y l]; [apply split_free, Hx|].
  change (join [sep] (x :: y :: l)) with (x ++ sep :: join [sep] (y :: l)).
  rewrite split_app_sep by exact Hx. rewrite IH; [reflexivity | discriminate | exact Hrest].
Qed.

(** What [WhitespaceReductionAction.apply] returns, in terms of [reduce]. *)
Lemma whitespace_reduction_apply (preserve_newlines : bool) (t : str) :
  apply (WhitespaceReductionAction preserve_newlines) t
  = Ok (if preserve_newlines then join [NL] (map reduce (split NL t)) else reduce t).
Proof.
  cbn [apply]. unfold WhitespaceReductionAction_apply, reduce.
  destruct preserve_newlines.
  - rewrite (mapM_ext _ (fun line => Ok (strip (collapse_runs false line)))).
    + rewrite mapM_Ok. reflexivity.
    + intro line. rewrite re_sub_literal by reflexivity. cbn [bind].
      rewrite (proj1 (subx_ws_plus line)). reflexivity.
  - rewrite re_sub_literal by reflexivity. cbn [bind].
    rewrite (proj1 (subx_ws_plus t)). reflexivity.
Qed.

Lemma starts_with_text_lstrip (s : str) : starts_with_text s -> lstrip s = s.
Proof. destruct s as [|c s]; simpl; [reflexivity|]. intros ->. reflexivity. Qed.

(** *** Trimming and lines, in the words of the specification *)

Lemma lstrip_whitespace (l s : str) :
  forallb isspace l = true -> lstrip (l ++ s) = lstrip s.
Proof.
  induction l as [|c l IH]; intro H; [reflexivity|].
  simpl in H. apply andb_true_iff in H. destruct H as [Hc Hl].
  simpl. rewrite Hc. exact (IH Hl).
Qed.

(** [strip] gives the text trimmed, and nothing else is the text trimmed. *)
Lemma strip_trim_of (s : str) : trim_of s (strip s).
Proof.
  destruct (strip_spec s) as [l [r H]]. exists l, r. exact H.
Qed.

Lemma trim_of_strip (s out : str) : trim_of s out -> out = strip s.
Proof.
  intros [l [r [E [Hl [Hr [H1 H2]]]]]]. subst s. unfold strip, rstrip.
  rewrite (@lstrip_whitespace _ _ Hl).
  destruct out as [|c o].
  - cbn [app]. rewrite <- (app_nil_r r), (@lstrip_whitespace _ _ Hr). reflexivity.
  - rewrite (@starts_with_text_lstrip ((c :: o) ++ r)) by exact H1.
    rewrite rev_app_distr, (@lstrip_whitespace _ _ (@forallb_rev _ _ Hr)).
    rewrite (@starts_with_text_lstrip _ H2). symmetry. apply rev_involutive.
Qed.

Lemma newline_join_join (lines : list str) : newline_join lines = join [NL] lines.
Proof.
  induction lines as [|x l IH]; [reflexivity|].
  destruct l as [|y l]; [reflexivity|].
  change (newline_join (x :: y :: l)) with (x ++ NL :: newline_join (y :: l)).
  rewrite IH. reflexivity.
Qed.

(** [split] gives the lines of the text, and nothing else is its lines. *)
Lemma split_lines_of (t : str) : lines_of t (split NL t).
Proof.
  split; [apply split_not_nil|]. split; [apply split_lines_free|].
  rewrite newline_join_join. symmetry. apply join_split.
Qed.

Lemma lines_of_split (t : str) (lines : list str) : lines_of t lines -> lines = split NL t.
Proof.
  intros [Hne [Hfree ->]]. rewrite newline_join_join. symmetry.
  apply split_join; assumption.
Qed.

Lemma trim_of_lines (lines outs : list str) :
  Forall2 (fun line o => trim_of (collapse_runs false line) o) lines outs ->
  outs = map reduce lines.
Proof.
  induction 1 as [|line o lines outs H _ IH]; [reflexivity|].
  cbn [map]. rewrite IH. unfold reduce at 1. rewrite (@trim_of_strip _ _ H). reflexivity.
Qed.

(** C3. With newlines preserved, whitespace reduction maps a text to the
    newline-join of its lines, each with every whitespace run collapsed to
    one space and trimmed; otherwise to the text with every whitespace run,
    newlines included, collapsed to one space, and the whole trimmed.  The
    call returns such a text, and there is no other. *)
Theorem whitespace_reduction_spec (preserve_newlines : bool) (t : str) :
  exists out,
    apply (WhitespaceReductionAction preserve_newlines) t = Ok out
    /\ spec_whitespace_reduction preserve_newlines t out
    /\ forall out', spec_whitespace_reduction preserve_newlines t out' -> out' = out.
Proof.
  rewrite whitespace_reduction_apply. eexists. split; [reflexivity|].
  destruct preserve_newlines; cbn [spec_whitespace_reduction].
  - split.
    + exists (split NL t), (map reduce (split NL t)).
      split; [apply split_lines_of|]. split; [|symmetry; apply newline_join_join].
      induction (split NL t) as [|line l IH]; constructor; [|exact IH].
      apply strip_trim_of.
    + intros out' [lines [outs [Hlines [Houts ->]]]].
      rewrite (@trim_of_lines _ _ Houts), (@lines_of_split _ _ Hlines). apply newline_join_join.
  - split; [apply strip_trim_of|].
    intros out' H. exact (@trim_of_strip _ _ H).
Qed.

(** ** Comment removal *)

Lemma re_sub_no_match (fl : flags) (r : regex) (t : str) :
  matches_nowhere fl (Some r) t = true -> re_sub r [] t fl = Ok t.
Proof.
  simpl. intro H. rewrite re_sub_literal by reflexivity.
  destruct (search fl r t) eqn:E; [discriminate|].
  rewrite subx_no_match by exact E. reflexivity.
Qed.

(** C4. Comment removal built without patterns is the identity; and when
    the patterns that are present match nowhere in the text, the result is
    the text itself. *)
Theorem comment_removal_identity (single multi : option regex) (t : str) :
  matches_nowhere RE_DOTALL multi t = true ->
  matches_nowhere RE_MULTILINE single t = true ->
  apply (CommentRemovalAction None None) t = Ok t
  /\ apply (CommentRemovalAction single multi) t = Ok t.
Proof.
  intros Hm Hs. split; [reflexivity|].
  cbn [apply]. unfold CommentRemovalAction_apply.
  destruct multi as [m|].
  - rewrite (re_sub_no_match _ _ _ Hm). cbn [bind].
    destruct single as [s|]; [|reflexivity].
    rewrite (re_sub_no_match _ _ _ Hs). reflexivity.
  - cbn [bind]. destruct single as [s|]; [|reflexivity].
    rewrite (re_sub_no_match _ _ _ Hs). reflexivity.
Qed.

(** The patterns of the JavaScript profile on a text without comments. *)
Lemma comment_removal_identity_witness :
  apply (CommentRemovalAction None None) (py "var x = 1;") = Ok (py "var x = 1;")
  /\ apply (CommentRemovalAction (Some slash_comment) (Some block_comment))
           (py "var x = 1;") = Ok (py "var x = 1;").
Proof.
  apply (comment_removal_identity (Some slash_comment) (Some block_comment)
           (py "var x = 1;")); reflexivity.
Defined.

(** With a pattern that does match, the comment goes. *)
Example comment_removal_removes :
  apply (CommentRemovalAction (Some slash_comment) (Some block_comment))
        (py "a /* b */ c // d")
  = Ok (py "a  c ").
Proof. reflexivity. Qed.

(** ** The language minifiers *)

(** A setter called with another value builds a new composite: the
    minifier's action is then the object with the identity that was free. *)
Lemma setters_rebuild (next : oid) :
  (forall m : PythonMinifier.t,
      let m' := fst (PythonMinifier.set_preserve_newlines m
                       (negb (PythonMinifier._preserve_newlines m)) next) in
      obj_id (PythonMinifier._action m') = next)
  /\ (forall m : JavaScriptMinifier.t,
      let m' := fst (JavaScriptMinifier.set_aggressive m
                       (negb (JavaScriptMinifier._aggressive m)) next) in
      obj_id (JavaScriptMinifier._action m') = next)
  /\ (forall m : HTMLMinifier.t,
      let m' := fst (HTMLMinifier.set_preserve_newlines m
                       (negb (HTMLMinifier._preserve_newlines m)) next) in
      obj_id (HTMLMinifier._action m') = next).
Proof.
  repeat split; intros [? ? ?] || intros [? ?];
    repeat match goal with b : bool |- _ => destruct b end; reflexivity.
Qed.

(** C5. A toggle setter of the Python, JavaScript or HTML minifier called
    with the value the toggle already has builds nothing: the minifier keeps
    the very same composite object (no identity is taken), and [minify]
    gives on every text what it gave before the call. *)
Theorem setters_same_value_noop (next : oid) (t : str) :
  (forall m : PythonMinifier.t,
      let r := PythonMinifier.set_preserve_newlines m (PythonMinifier._preserve_newlines m) next in
      PythonMinifier._action (fst r) = PythonMinifier._action m /\ snd r = next
      /\ PythonMinifier.minify (fst r) t = PythonMinifier.minify m t)
  /\ (forall m : PythonMinifier.t,
      let r := PythonMinifier.set_preserve_docstrings m (PythonMinifier._preserve_docstrings m) next in
      PythonMinifier._action (fst r) = PythonMinifier._action m /\ snd r = next
      /\ PythonMinifier.minify (fst r) t = PythonMinifier.minify m t)
  /\ (forall m : JavaScriptMinifier.t,
      let r := JavaScriptMinifier.set_preserve_newlines m (JavaScriptMinifier._preserve_newlines m) next in
      JavaScriptMinifier._action (fst r) = JavaScriptMinifier._action m /\ snd r = next
      /\ JavaScriptMinifier.minify (fst r) t = JavaScriptMinifier.minify m t)
  /\ (forall m : JavaScriptMinifier.t,
      let r := JavaScriptMinifier.set_aggressive m (JavaScriptMinifier._aggressive m) next in
      JavaScriptMinifier._action (fst r) = JavaScriptMinifier._action m /\ snd r = next
      /\ JavaScriptMinifier.minify (fst r) t = JavaScriptMinifier.minify m t)
  /\ (forall m : HTMLMinifier.t,
      let r := HTMLMinifier.set_preserve_newlines m (HTMLMinifier._preserve_newlines m) next in
      HTMLMinifier._action (fst r) = HTMLMinifier._action m /\ snd r = next
      /\ HTMLMinifier.minify (fst r) t = HTMLMinifier.minify m t).
Proof.
  repeat apply conj; intros m r; subst r.
  - same_value PythonMinifier.set_preserve_newlines.
  - same_value PythonMinifier.set_preserve_docstrings.
  - same_value JavaScriptMinifier.set_preserve_newlines.
  - same_value JavaScriptMinifier.set_aggressive.
  - same_value HTMLMinifier.set_preserve_newlines.
Qed.

(** ** The custom minifier *)

Lemma bind_Ok_r (A : Type) (m : result A) : bind m (fun a => Ok a) = m.
Proof. destruct m; reflexivity. Qed.

Lemma apply_composite_init (l : list Action) (t : str) :
  apply (CompositeMinificationAction_init (Some l)) t
  = apply (CompositeMinificationAction l) t.
Proof. destruct l; reflexivity. Qed.

Lemma apply_composite_snoc (l : list Action) (a : Action) (t : str) :
  apply (CompositeMinificationAction (l ++ [a])) t
  = bind (apply (CompositeMinificationAction l) t) (apply a).
Proof.
  rewrite apply_composite_app. destruct (apply (CompositeMinificationAction l) t) as [r|e];
    [|reflexivity].
  cbn [bind]. rewrite apply_composite_cons. apply bind_Ok_r.
Qed.

(** C8. The custom minifier builds a fresh composite from the supplied list
    on every call of [minify]: the output is that of the composite of the
    list as it is at the call, each call builds a new object, an action
    appended to the list between two calls is applied by the second one,
    and with an empty list [minify] returns its input. *)
Theorem custom_minifier_reads_list_each_call
    (m : CustomMinifier.t) (h : heap) (a : Action) (t : str) :
  let '(out, action, h1) := CustomMinifier.minify m t h in
  out = apply (CompositeMinificationAction (lists h (CustomMinifier.actions m))) t
  /\ (let '(out2, action2, _) := CustomMinifier.minify m t h1 in
      out2 = out /\ obj_id action2 <> obj_id action)
  /\ (let '(out2, _, _) :=
        CustomMinifier.minify m t (list_append h1 (CustomMinifier.actions m) a) in
      out2 = bind out (apply a))
  /\ (lists h (CustomMinifier.actions m) = [] -> out = Ok t)
  /\ fst (fst (CustomMinifier.minify m t (list_clear h (CustomMinifier.actions m)))) = Ok t.
Proof.
  unfold CustomMinifier.minify, new. cbn -[apply CompositeMinificationAction_init].
  rewrite Nat.eqb_refl. rewrite !apply_composite_init.
  repeat split.
  - lia.
  - apply apply_composite_snoc.
  - intros ->. reflexivity.
Qed.

(** An instance: the list at address 0 is empty, then gets an action. *)
Lemma custom_minifier_reads_list_each_call_witness :
  let m := CustomMinifier.create_custom_minifier (py "txt") [py ".txt"] 0 in
  let h := {| lists := fun _ => []; next_id := 0 |} in
  fst (fst (CustomMinifier.minify m (py " a  b ") h)) = Ok (py " a  b ")
  /\ fst (fst (CustomMinifier.minify m (py " a  b ")
                 (list_append h 0 (WhitespaceReductionAction false))))
     = Ok (py "a b").
Proof.
  pose proof (custom_minifier_reads_list_each_call
                (CustomMinifier.create_custom_minifier (py "txt") [py ".txt"] 0)
                {| lists := fun _ => []; next_id := 0 |}
                (WhitespaceReductionAction false) (py " a  b ")) as H.
  cbv zeta. split.
  - exact (proj1 (proj2 (proj2 (proj2 H))) eq_refl).
  - reflexivity.
Defined.

(** ** Line joining *)

(** After the first line, each step of the loop appends the separator and
    the line without its final character when it ends with the separator. *)
Lemma line_joining_loop_later (sep : str) (l : list str) :
  forall k acc,
    0 < k ->
    fold_left (line_joining_step sep) (combine (seq k (length l)) l) acc
    = acc ++ flat_map (fun y => sep ++ drop_final sep y) l.
Proof.
  induction l as [|x l IH]; intros k acc Hk; simpl.
  - rewrite app_nil_r. reflexivity.
  - rewrite IH by lia. unfold drop_final.
    destruct k as [|k]; [lia|]. cbn [Nat.ltb Nat.leb].
    destruct (endswith x sep); rewrite <- !app_assoc; reflexivity.
Qed.

Lemma line_joining_loop (sep : str) (l : list str) :
  fold_left (line_joining_step sep) (enumerate l) []
  = join sep (map (drop_final sep) l).
Proof.
  unfold enumerate. destruct l as [|x l]; [reflexivity|].
  cbn [length seq combine fold_left map]. rewrite join_cons.
  rewrite line_joining_loop_later by lia.
  assert (E : forall l', flat_map (fun y => sep ++ y) (map (drop_final sep) l')
                         = flat_map (fun y => sep ++ drop_final sep y) l').
  { induction l' as [|y l' IH]; simpl; [reflexivity | rewrite IH; reflexivity]. }
  rewrite E. unfold line_joining_step at 1. cbn [Nat.ltb Nat.leb].
  unfold drop_final at 2. destruct (endswith x sep); reflexivity.
Qed.

(** What [LineJoiningAction.apply] computes, for every separator. *)
Lemma line_joining_apply (sep code : str) :
  apply (LineJoiningAction sep) code
  = Ok (join sep (map (drop_final sep) (retained_lines code))).
Proof.
  cbn [apply]. unfold LineJoiningAction_apply. rewrite line_joining_loop. reflexivity.
Qed.

Lemma retained_lines_nonempty (code line : str) :
  In line (retained_lines code) -> line <> [].
Proof.
  unfold retained_lines. rewrite in_map_iff. intros [x [<- Hx]].
  apply filter_In in Hx. destruct Hx as [_ Hx].
  destruct (strip x); [discriminate | congruence].
Qed.

(** Dropping the final character removes the separator exactly when the
    separator is one character long. *)
Lemma but_last_is_separator_removal (sep line : str) :
  line <> [] -> endswith line sep = true ->
  (but_last line = firstn (length line - length sep) line <-> length sep = 1).
Proof.
  intros Hne He. unfold endswith in He. apply andb_true_iff in He.
  destruct He as [Hle _]. apply Nat.leb_le in Hle.
  assert (Hlen : 1 <= length line) by (destruct line; [congruence | simpl; lia]).
  unfold but_last. split; intro H.
  - apply (f_equal (@length char)) in H. rewrite !length_firstn in H. lia.
  - rewrite H. reflexivity.
Qed.

(** With a one-character separator the loop removes the trailing
    separator, as the specification words it. *)
Lemma line_joining_one_character (c : char) (code : str) :
  apply (LineJoiningAction [c]) code = Ok (spec_line_joining [c] code).
Proof.
  rewrite line_joining_apply. unfold spec_line_joining.
  apply f_equal, f_equal, map_ext_in. intros line Hin. unfold drop_final, strip_separator.
  destruct (endswith line [c]) eqn:E; [|reflexivity].
  apply but_last_is_separator_removal; [|exact E|reflexivity].
  exact (@retained_lines_nonempty _ _ Hin).
Qed.

(** The example of the specification, with the newline written as [NL]. *)
Example line_joining_semicolons :
  apply (LineJoiningAction (py ";")) (py "a;" ++ [NL] ++ py "b" ++ [NL] ++ py "c;")
  = Ok (py "a;b;c").
Proof. reflexivity. Qed.

(** C6. With the two-character separator [&&], the line [a&&] loses one
    character only, so the joined text has the separator and a half; the
    specification's wording gives [a&&b]. *)
Theorem line_joining_two_character_separator :
  apply (LineJoiningAction (py "&&")) (py "a&&" ++ [NL] ++ py "b") = Ok (py "a&&&b")
  /\ spec_line_joining (py "&&") (py "a&&" ++ [NL] ++ py "b") = py "a&&b".
Proof. split; reflexivity. Qed.

(** C10. With a separator of more than one character, a retained line that
    ends with the separator loses its final character only, not the whole
    separator; the whole separator goes exactly when it is one character
    long. *)
Theorem line_joining_long_separator (sep code : str) :
  1 < length sep ->
  apply (LineJoiningAction sep) code
    = Ok (join sep (map (drop_final sep) (retained_lines code)))
  /\ (forall line,
        In line (retained_lines code) -> endswith line sep = true ->
        drop_final sep line = but_last line
        /\ length (drop_final sep line) = length line - 1
        /\ drop_final sep line <> strip_separator sep line)
  /\ (forall sep' line,
        In line (retained_lines code) -> endswith line sep' = true ->
        (drop_final sep' line = strip_separator sep' line <-> length sep' = 1)).
Proof.
  intro Hsep. split; [apply line_joining_apply|].
  assert (Hiff : forall sep' line,
             In line (retained_lines code) -> endswith line sep' = true ->
             (drop_final sep' line = strip_separator sep' line <-> length sep' = 1)).
  { intros sep' line Hin He. unfold drop_final, strip_separator. rewrite He.
    apply but_last_is_separator_removal; [exact (@retained_lines_nonempty _ _ Hin) | exact He]. }
  split; [|exact Hiff].
  intros line Hin He. repeat split.
  - unfold drop_final. rewrite He. reflexivity.
  - unfold drop_final. rewrite He. unfold but_last. rewrite length_firstn. lia.
  - intro Heq. apply (Hiff sep line Hin He) in Heq. lia.
Qed.

Lemma line_joining_long_separator_witness :
  apply (LineJoiningAction (py "&&")) (py "a&&" ++ [NL] ++ py "b")
  = Ok (join (py "&&") (map (drop_final (py "&&"))
                            (retained_lines (py "a&&" ++ [NL] ++ py "b"))))
  /\ drop_final (py "&&") (py "a&&") = py "a&".
Proof.
  pose proof (@line_joining_long_separator (py "&&")
                (py "a&&" ++ [NL] ++ py "b") ltac:(simpl; lia)) as [H1 [H2 _]].
  split; [exact H1|].
  rewrite (proj1 (H2 (py "a&&") ltac:(simpl; auto) eq_refl)). reflexivity.
Defined.

(** ** The factory *)

Lemma str_eqb_neq (a b : str) : str_eqb a b = false <-> a <> b.
Proof.
  unfold str_eqb. destruct (list_eq_dec N.eq_dec a b); split; congruence.
Qed.






(** A keyword that the class does not take is a [TypeError], not the error
    for an unknown kind; an unknown tag is the [ValueError]. *)
Example create_action_errors :
  create_action (py "empty_lines") None
    {| kw_preserve_newlines := Some true; kw_single_line_pattern := None;
       kw_multi_line_pattern := None; kw_patterns := None;
       kw_separator := None; kw_other := [] |} = Raise TypeError
  /\ create_action (py "bogus") None no_kwargs
     = Raise (ValueError (py "Unknown action type: bogus")).
Proof. split; reflexivity. Qed.

(** ** The job and the project walker *)

(** Writing changes the file at the path only; the path is noted as written
    when the write completes, and then the file holds the text, with the
    line separator of the platform for each newline. *)
Lemma write_file_effect (d : filesystem) (p content : str) :
  let r := FileProcessor.write_file d p content in
  (forall q, q <> p -> files (snd r) q = files d q)
  /\ read_only (snd r) = read_only d
  /\ linesep (snd r) = linesep d
  /\ write_fault (snd r) = write_fault d
  /\ match fst r with
     | Ok _ => files (snd r) p = Some (Text (to_linesep (linesep d) content))
               /\ written (snd r) = p :: written d
     | Raise _ => written (snd r) = written d
     end.
Proof.
  assert (Hset : forall f q, q <> p -> files (set_file d p f) q = files d q).
  { intros f q Hq. cbn. apply str_eqb_neq in Hq. rewrite Hq. reflexivity. }
  unfold FileProcessor.write_file.
  destruct (read_only d p); [cbn; auto 6|].
  destruct (encodable content); cbn [negb]; [|cbn [fst snd]; auto 6].
  destruct (write_fault d p); [cbn [fst snd]; auto 6|].
  cbn. rewrite (proj2 (str_eqb_eq _ _) eq_refl). repeat split.
  intros q Hq. apply str_eqb_neq in Hq. rewrite Hq. reflexivity.
Qed.

Lemma execute_outcome (job : MinificationJob.t) (w : world) :
  outcome job w (MinificationJob.execute job w).
Proof.
  unfold MinificationJob.execute.
  destruct (FileProcessor.read_file (fs w) (MinificationJob.file_path job)) as [code|e]
    eqn:Esrc; cbn [bind]; [|constructor].
  destruct (LanguageMinifier.minify (MinificationJob.minifier job) code) as [out|e]
    eqn:Emin; cbn [bind]; [|constructor].
  assert (Hold : FileProcessor.file_exists (fs w) (MinificationJob.minified_path job) = false
                 -> FileProcessor.read_file (fs w) (MinificationJob.minified_path job)
                    <> Ok out).
  { unfold FileProcessor.file_exists, FileProcessor.read_file.
    destruct (files (fs w) (MinificationJob.minified_path job)); [discriminate|].
    intros _. discriminate. }
  destruct (FileProcessor.file_exists (fs w) (MinificationJob.minified_path job)).
  - destruct (FileProcessor.read_file (fs w) (MinificationJob.minified_path job))
      as [existing|e] eqn:Eread; cbn [bind]; [|constructor].
    destruct (str_eqb existing out) eqn:Eeq.
    + apply str_eqb_eq in Eeq. subst existing. exact (outcome_no_change _ _ Esrc Emin Eread).
    + apply str_eqb_neq in Eeq.
      destruct (FileProcessor.write_file (fs w) (MinificationJob.minified_path job) out)
        as [[[]|e] d] eqn:Ew.
      * apply (outcome_written _ _ Esrc Emin); [congruence | exact Ew].
      * apply (outcome_write_failed _ _ Esrc Emin); [congruence | exact Ew].
  - cbn [bind].
    destruct (FileProcessor.write_file (fs w) (MinificationJob.minified_path job) out)
      as [[[]|e] d] eqn:Ew.
    + apply (outcome_written _ _ Esrc Emin); [exact (Hold eq_refl) | exact Ew].
    + apply (outcome_write_failed _ _ Esrc Emin); [exact (Hold eq_refl) | exact Ew].
Qed.

(** A job either writes its output, prints [Minified] and returns [True],
    or completes no write and prints another line. *)
Lemma execute_cases (job : MinificationJob.t) (w : world) :
  let r := MinificationJob.execute job w in
  (fst r = Ok true
   /\ written (fs (snd r)) = MinificationJob.minified_path job :: written (fs w)
   /\ stdout (snd r) = stdout w ++ [Minified (MinificationJob.minified_path job)])
  \/ (fst r <> Ok true
      /\ written (fs (snd r)) = written (fs w)
      /\ exists m, stdout (snd r) = stdout w ++ [m] /\ is_minified m = false).
Proof.
  destruct (execute_outcome job w) as [e | code out _ _ _ | code out d _ _ _ Ew
                                       | code out e d _ _ _ Ew].
  - nothing_written.
  - nothing_written.
  - left. pose proof (write_file_effect (fs w) (MinificationJob.minified_path job) out) as H.
    rewrite Ew in H. cbn [fst snd] in H. cbn. repeat split. apply H.
  - pose proof (write_file_effect (fs w) (MinificationJob.minified_path job) out) as H.
    rewrite Ew in H. cbn [fst snd] in H. right. cbn.
    split; [discriminate|]. split; [apply H | eauto].
Qed.

(** A job changes no file but the one at its minified path. *)
Lemma execute_frame (job : MinificationJob.t) (w : world) (q : str) :
  q <> MinificationJob.minified_path job ->
  files (fs (snd (MinificationJob.execute job w))) q = files (fs w) q.
Proof.
  intro Hq.
  destruct (execute_outcome job w) as [e | code out _ _ _ | code out d _ _ _ Ew
                                       | code out e d _ _ _ Ew];
    try reflexivity;
    pose proof (write_file_effect (fs w) (MinificationJob.minified_path job) out) as H;
    rewrite Ew in H; cbn [fst snd] in H; cbn; apply H, Hq.
Qed.

(** A job whose output is there already, with the text that the minifier
    gives, writes nothing. *)
Lemma execute_identical (job : MinificationJob.t) (w : world) (code out : str) :
  FileProcessor.read_file (fs w) (MinificationJob.file_path job) = Ok code ->
  LanguageMinifier.minify (MinificationJob.minifier job) code = Ok out ->
  FileProcessor.read_file (fs w) (MinificationJob.minified_path job) = Ok out ->
  MinificationJob.execute job w
  = (Ok false, print (NoChange (MinificationJob.minified_path job)) w).
Proof.
  intros Esrc Emin Eread. unfold MinificationJob.execute.
  rewrite Esrc. cbn [bind]. rewrite Emin. cbn [bind].
  unfold FileProcessor.file_exists. rewrite Eread.
  unfold FileProcessor.read_file in Eread.
  destruct (files (fs w) (MinificationJob.minified_path job)) as [[existing|]|];
    try discriminate.
  cbn [passed bind]. rewrite (proj2 (str_eqb_eq _ _) eq_refl). reflexivity.
Qed.

Section ProjectProperties.
Variable lower : str -> str.
Variable splitext : str -> str * str.
Variable path_join : str -> str -> str.




(** The list that the loop over the directories looks at. *)
Lemma files_to_skip_extended (self : ProjectMinifier.t) (extra_to_skip : option (list str)) :
  ProjectMinifier.files_to_skip (ProjectMinifier.extend_files_to_skip self extra_to_skip)
  = ProjectMinifier.files_to_skip self ++ default extra_to_skip [].
Proof.
  destruct extra_to_skip as [[|x l]|]; cbn; rewrite ?app_nil_r; reflexivity.
Qed.




End ProjectProperties.



(** When the output differs it is written, and the file is counted as
    processed. *)
Example minify_project_writes :
  let '(processed, skipped, _, w') :=
    ProjectMinifier.minify_project ascii_lower posix_splitext posix_join
      example_project [ (py "p", [], [py "a.js"]) ] None None (py ".min") None
      {| fs := {| files := fun p => if str_eqb p (py "p/a.js")
                                    then Some (Text (py "x  =  1; // one")) else None;
                  read_only := fun _ => false; written := [];
                  linesep := [NL]; write_fault := fun _ => None |};
         stdout := [] |} in
  processed = 1 /\ skipped = 0
  /\ stdout w' = [Minified (py "p/a.min.js")]
  /\ files (fs w') (py "p/a.min.js") = Some (Text (py "x = 1;")).
Proof.
  vm_compute. repeat split.
Qed.

(** The directories to skip that one call is given are skipped by the
    later calls on the same object as well. *)
Example minify_project_keeps_files_to_skip :
  let w := {| fs := example_files; stdout := [] |} in
  let '(_, _, project, w1) :=
    ProjectMinifier.minify_project ascii_lower posix_splitext posix_join
      example_project example_walk None None (py ".min") (Some [py "p"]) w in
  let '(processed, skipped, project', _) :=
    ProjectMinifier.minify_project ascii_lower posix_splitext posix_join
      project example_walk None None (py ".min") None w1 in
  ProjectMinifier.files_to_skip project = [py "__pycache__"; py "p"]
  /\ ProjectMinifier.files_to_skip project' = [py "__pycache__"; py "p"]
  /\ processed = 0 /\ skipped = 0.
Proof.
  vm_compute. repeat split.
Qed.

(** With another suffix the test for minified files is the same: a file
    written with the suffix [-min] is taken as a source on the next run. *)
Example minify_project_other_suffix :
  let '(processed, skipped, _, w') :=
    ProjectMinifier.minify_project ascii_lower posix_splitext posix_join
      example_project [ (py "p", [], [py "a-min.js"]) ] None None (py "-min") None
      {| fs := {| files := fun p => if str_eqb p (py "p/a-min.js")
                                    then Some (Text (py "x = 1;")) else None;
                  read_only := fun _ => false; written := [];
                  linesep := [NL]; write_fault := fun _ => None |};
         stdout := [] |} in
  processed = 1 /\ skipped = 0 /\ stdout w' = [Minified (py "p/a-min-min.js")].
Proof.
  vm_compute. repeat split.
Qed.

(** ** The unit tests of the package and the examples of the specification *)

Example test_single_line_comments :
  apply (CommentRemovalAction (Some slash_comment) None)
        (text ["var x = 5; // This is a comment"; "var y = 10; // Another comment"]%string)
  = Ok (text ["var x = 5; "; "var y = 10; "]%string).
Proof. reflexivity. Qed.

Example test_multi_line_comments :
  apply (CommentRemovalAction None (Some block_comment))
        (text ["var x = 5;"; "/* Multi-line"; "comment */"; "var y = 10;"]%string)
  = Ok (text ["var x = 5;"; ""; "var y = 10;"]%string).
Proof. reflexivity. Qed.

Example test_both_comment_types :
  apply (CommentRemovalAction (Some slash_comment) (Some block_comment))
        (text ["var x = 5; // Single line"; "/* Multi-line"; "comment */"; "var y = 10;"]%string)
  = Ok (text ["var x = 5; "; ""; "var y = 10;"]%string).
Proof. reflexivity. Qed.

Example test_whitespace_reduction :
  apply (WhitespaceReductionAction true) (text ["  var   x  =  5;  "; "  var  y  =  10;  "]%string)
  = Ok (text ["var x = 5;"; "var y = 10;"]%string)
  /\ apply (WhitespaceReductionAction false) (text ["  var   x  =  5;  "; "  var  y  =  10;  "]%string)
     = Ok (py "var x = 5; var y = 10;").
Proof. split; reflexivity. Qed.

Example test_empty_line_removal :
  apply EmptyLineRemovalAction (text ["var x = 5;"; ""; ""; "var y = 10;"; ""; ""]%string)
  = Ok (text ["var x = 5;"; "var y = 10;"]%string).
Proof. reflexivity. Qed.

Example test_operator_space_removal :
  apply (default_action Operators) (py "var x = 5 + 10; var y = 20 - 5;")
  = Ok (py "var x=5+10; var y=20-5;").
Proof. reflexivity. Qed.

Example test_line_joining :
  apply (LineJoiningAction (py ";")) (text ["var x = 5;"; "var y = 10;"; "var z = 15;"]%string)
  = Ok (py "var x = 5;var y = 10;var z = 15").
Proof. reflexivity. Qed.

Example test_composite_action :
  apply (CompositeMinificationAction
           [ CommentRemovalAction (Some slash_comment) None;
             EmptyLineRemovalAction;
             WhitespaceReductionAction true ])
        (text ["var x = 5; // Comment"; ""; "var y = 10; // Another comment"]%string)
  = Ok (text ["var x = 5;"; "var y = 10;"]%string).
Proof. reflexivity. Qed.

Example python_minifier_default :
  PythonMinifier.minify (fst (PythonMinifier.init true false 0))
    (text ["def f():"; "    # comment"; "    return 1"]%string)
  = Ok (text ["def f():"; "return 1"]%string).
Proof. reflexivity. Qed.

Example javascript_minifier_aggressive :
  JavaScriptMinifier.minify (fst (JavaScriptMinifier.init true true 0)) (py "var x = 1 + 2;")
  = Ok (py "var x=1+2;").
Proof. reflexivity. Qed.

Example css_minifier :
  CSSMinifier.minify (fst (CSSMinifier.init 0)) (text ["body {"; "  color: #333;"; "}"]%string)
  = Ok (py "body{color:#333;}").
Proof. reflexivity. Qed.

Example html_minifier :
  HTMLMinifier.minify (fst (HTMLMinifier.init true 0))
    (text ["<div>  <!-- c"; " d --> <p>a</p>"; ""; "</div>"]%string)
  = Ok (text ["<div> <p>a</p>"; "</div>"]%string).
Proof. reflexivity. Qed.

(** A toggle that changes is seen by the next [minify]. *)
Example javascript_set_aggressive :
  let m := fst (JavaScriptMinifier.init true false 0) in
  JavaScriptMinifier.minify m (py "var x = 1 + 2;") = Ok (py "var x = 1 + 2;")
  /\ JavaScriptMinifier.minify (fst (JavaScriptMinifier.set_aggressive m true 1))
       (py "var x = 1 + 2;") = Ok (py "var x=1+2;").
Proof. split; reflexivity. Qed.

(** * Further properties *)

(** ** Empty line removal *)

Lemma filter_idempotent (A : Type) (f : A -> bool) (l : list A) :
  filter f (filter f l) = filter f l.
Proof.
  induction l as [|x l IH]; simpl; [reflexivity|].
  destruct (f x) eqn:E; simpl; [rewrite E, IH | rewrite IH]; reflexivity.
Qed.

(** The lines of the output of [EmptyLineRemovalAction.apply] are the lines
    of the input that are not blank, in their order; when every line is
    blank the output is the empty text. *)
Lemma empty_line_removal_lines (code : str) :
  let kept := filter not_blank (split NL code) in
  EmptyLineRemovalAction_apply code = join [NL] kept
  /\ (kept <> [] -> split NL (EmptyLineRemovalAction_apply code) = kept)
  /\ (kept = [] -> EmptyLineRemovalAction_apply code = []).
Proof.
  intro kept. unfold EmptyLineRemovalAction_apply. fold not_blank. fold kept.
  split; [reflexivity|]. split.
  - intro Hne. apply split_join; [exact Hne|].
    unfold kept. apply Forall_forall. intros line Hin.
    apply filter_In in Hin. destruct Hin as [Hin _].
    pose proof (split_lines_free NL code) as Hfree.
    rewrite Forall_forall in Hfree. exact (Hfree line Hin).
  - intros ->. reflexivity.
Qed.

(** X1. Removing the empty lines of a text twice gives what removing them
    once gives. *)
Theorem empty_line_removal_idempotent (code : str) :
  bind (apply EmptyLineRemovalAction code) (apply EmptyLineRemovalAction)
  = apply EmptyLineRemovalAction code.
Proof.
  cbn [apply bind]. f_equal.
  destruct (empty_line_removal_lines code) as [E [Hsome Hnone]].
  destruct (filter not_blank (split NL code)) as [|x kept] eqn:Ek.
  - rewrite (Hnone eq_refl). reflexivity.
  - unfold EmptyLineRemovalAction_apply at 1. fold not_blank.
    rewrite Hsome by discriminate. rewrite <- Ek, filter_idempotent, Ek.
    rewrite E. reflexivity.
Qed.

(** X2. Empty line removal keeps every line that is not blank, in order,
    drops the blank ones and changes nothing else: a text whose lines are
    all not blank comes back as it is, and no line of a non-empty output is
    blank. *)
Theorem empty_line_removal_keeps_lines (code : str) :
  (forallb not_blank (split NL code) = true ->
   apply EmptyLineRemovalAction code = Ok code)
  /\ (forall out,
        apply EmptyLineRemovalAction code = Ok out -> out <> [] ->
        split NL out = filter not_blank (split NL code)
        /\ forallb not_blank (split NL out) = true).
Proof.
  split.
  - intro H. cbn [apply]. f_equal. unfold EmptyLineRemovalAction_apply.
    fold not_blank.
    assert (E : filter not_blank (split NL code) = split NL code).
    { revert H. generalize (split NL code). intros l.
      induction l as [|x l IH]; simpl; [reflexivity|].
      intro H. apply andb_true_iff in H. destruct H as [Hx Hl].
      rewrite Hx, (IH Hl). reflexivity. }
    rewrite E. apply join_split.
  - intros out H Hne. cbn [apply] in H. injection H as <-.
    destruct (empty_line_removal_lines code) as [_ [Hsome Hnone]].
    destruct (filter not_blank (split NL code)) as [|x kept] eqn:Ek.
    + exfalso. apply Hne. exact (Hnone eq_refl).
    + rewrite Hsome by discriminate. split; [reflexivity|].
      rewrite <- Ek. apply forallb_forall. intros line Hin.
      apply filter_In in Hin. exact (proj2 Hin).
Qed.

Lemma empty_line_removal_keeps_lines_witness :
  apply EmptyLineRemovalAction (text ["a"; "b c"]%string) = Ok (text ["a"; "b c"]%string).
Proof.
  apply (proj1 (empty_line_removal_keeps_lines (text ["a"; "b c"]%string))).
  reflexivity.
Defined.

(** ** Whitespace reduction *)

Lemma single_spaced_tail (c : char) (s : str) :
  single_spaced (c :: s) = true -> single_spaced s = true.
Proof.
  cbn [single_spaced]. destruct s as [|d s]; [reflexivity|].
  intro H. apply andb_true_iff in H. exact (proj2 H).
Qed.

Lemma single_spaced_app (a b : str) :
  single_spaced (a ++ b) = true -> single_spaced a = true /\ single_spaced b = true.
Proof.
  induction a as [|c a IH]; intro H; [split; [reflexivity | exact H]|].
  rewrite <- app_comm_cons in H.
  destruct (IH (single_spaced_tail _ _ H)) as [Ha Hb]. split; [|exact Hb].
  destruct a as [|d a]; [reflexivity|].
  cbn [single_spaced app] in *. apply andb_true_iff in H. destruct H as [H _].
  rewrite H. exact Ha.
Qed.

Lemma normalized_part (l m r : str) : normalized (l ++ m ++ r) -> normalized m.
Proof.
  intros [H1 H2]. split.
  - apply single_spaced_app in H1. destruct H1 as [_ H1].
    apply single_spaced_app in H1. exact (proj1 H1).
  - intros c Hc. apply H2. rewrite !in_app_iff. tauto.
Qed.

Lemma collapse_runs_normalized (s : str) : normalized (collapse_runs false s).
Proof.
  split; [exact (proj1 (collapse_runs_single_spaced s false))|].
  intros c. apply collapse_runs_spaces.
Qed.

(** Collapsing the runs of a normalized text changes nothing. *)
Lemma normalized_collapse_runs (s : str) : normalized s -> collapse_runs false s = s.
Proof.
  induction s as [|c s IH]; intro H; [reflexivity|].
  assert (Hs : normalized s).
  { destruct H as [H1 H2]. split; [exact (single_spaced_tail _ _ H1)|].
    intros d Hd. apply H2. right. exact Hd. }
  cbn [collapse_runs]. destruct (isspace c) eqn:E.
  - destruct H as [H1 H2]. rewrite (H2 c (or_introl eq_refl) E). f_equal.
    destruct s as [|d s]; [reflexivity|].
    cbn [single_spaced] in H1. apply andb_true_iff in H1. destruct H1 as [H1 _].
    rewrite E in H1. cbn in H1. apply negb_true_iff in H1.
    rewrite <- (IH Hs) at 2. cbn [collapse_runs]. rewrite H1. reflexivity.
  - rewrite (IH Hs). reflexivity.
Qed.

Lemma trimmed_strip (s : str) : trimmed s -> strip s = s.
Proof.
  intros [H1 H2]. unfold strip, rstrip.
  rewrite (starts_with_text_lstrip _ H1), (starts_with_text_lstrip _ H2).
  apply rev_involutive.
Qed.

(** The result of [reduce]: normalized, trimmed, and made of the
    characters of the text that are not whitespace, with spaces between. *)
Lemma reduce_shape (s : str) :
  normalized (reduce s) /\ trimmed (reduce s) /\ ~ In NL (reduce s)
  /\ text_of (reduce s) = text_of s.
Proof.
  unfold reduce.
  destruct (strip_spec (collapse_runs false s)) as [l [r [E [Hl [Hr [H1 H2]]]]]].
  assert (Hn : normalized (strip (collapse_runs false s))).
  { apply (normalized_part l _ r). rewrite <- E. apply collapse_runs_normalized. }
  split; [exact Hn|]. split; [split; assumption|]. split.
  - intro Hin. destruct Hn as [_ Hn]. specialize (Hn NL Hin eq_refl). discriminate Hn.
  - unfold text_of. rewrite <- (collapse_runs_keeps_text s false).
    set (y := strip (collapse_runs false s)) in *. rewrite E, !filter_app.
    assert (Hws : forall x, forallb isspace x = true ->
                            filter (fun c => negb (isspace c)) x = []).
    { induction x as [|c x IH]; simpl; [reflexivity|]. intro H.
      apply andb_true_iff in H. destruct H as [Hc Hx]. rewrite Hc. simpl. exact (IH Hx). }
    rewrite (Hws l Hl), (Hws r Hr), app_nil_r. reflexivity.
Qed.

Lemma reduce_idempotent (s : str) : reduce (reduce s) = reduce s.
Proof.
  destruct (reduce_shape s) as [Hn [Ht _]].
  unfold reduce at 1. rewrite (normalized_collapse_runs Hn). apply trimmed_strip, Ht.
Qed.

Lemma split_join_reduce (l : list str) :
  l <> [] -> split NL (join [NL] (map reduce l)) = map reduce l.
Proof.
  intro Hne. apply split_join.
  - destruct l; [congruence | discriminate].
  - apply Forall_forall. intros x Hx. apply in_map_iff in Hx.
    destruct Hx as [y [<- _]]. exact (proj1 (proj2 (proj2 (reduce_shape y)))).
Qed.

(** X3. Whitespace reduction is idempotent, with newlines preserved or not:
    applied to its own output it returns that output. *)
Theorem whitespace_reduction_idempotent (preserve_newlines : bool) (t : str) :
  bind (apply (WhitespaceReductionAction preserve_newlines) t)
       (apply (WhitespaceReductionAction preserve_newlines))
  = apply (WhitespaceReductionAction preserve_newlines) t.
Proof.
  rewrite (whitespace_reduction_apply preserve_newlines t). cbn [bind].
  rewrite whitespace_reduction_apply. f_equal. destruct preserve_newlines.
  - rewrite split_join_reduce by apply split_not_nil.
    rewrite map_map. f_equal. apply map_ext. intro x. apply reduce_idempotent.
  - apply reduce_idempotent.
Qed.

(** X4. Without newlines preserved, the output of whitespace reduction is a
    single line: it holds no newline, its only whitespace is single spaces
    between words, and it neither starts nor ends with whitespace. *)
Theorem whitespace_reduction_single_line (t out : str) :
  apply (WhitespaceReductionAction false) t = Ok out ->
  ~ In NL out /\ normalized out /\ trimmed out.
Proof.
  rewrite whitespace_reduction_apply. intros [= <-].
  destruct (reduce_shape t) as [Hn [Ht [Hnl _]]]. auto.
Qed.

Lemma whitespace_reduction_single_line_witness :
  ~ In NL (py "a b") /\ normalized (py "a b") /\ trimmed (py "a b").
Proof.
  apply (@whitespace_reduction_single_line (text [" a  "; " b "]%string) (py "a b")).
  reflexivity.
Defined.

(** X5. With newlines preserved, whitespace reduction keeps the number of
    lines, and every line of the output is normalized and trimmed. *)
Theorem whitespace_reduction_keeps_line_count (t out : str) :
  apply (WhitespaceReductionAction true) t = Ok out ->
  length (split NL out) = length (split NL t)
  /\ Forall (fun line => normalized line /\ trimmed line) (split NL out).
Proof.
  rewrite whitespace_reduction_apply. intros [= <-].
  rewrite split_join_reduce by apply split_not_nil.
  split; [apply length_map|].
  apply Forall_forall. intros x Hx. apply in_map_iff in Hx.
  destruct Hx as [y [<- _]]. destruct (reduce_shape y) as [Hn [Ht _]]. auto.
Qed.

Lemma whitespace_reduction_keeps_line_count_witness :
  length (split NL (text ["a b"; ""; "c"]%string)) = 3
  /\ Forall (fun line => normalized line /\ trimmed line)
            (split NL (text ["a b"; ""; "c"]%string)).
Proof.
  apply (@whitespace_reduction_keeps_line_count
           (text [" a   b "; "   "; "c"]%string) (text ["a b"; ""; "c"]%string)).
  reflexivity.
Defined.

Lemma text_of_join (l : list str) :
  text_of (join [NL] l) = flat_map text_of l.
Proof.
  induction l as [|x l IH]; [reflexivity|]. rewrite join_cons.
  unfold text_of in *. rewrite filter_app. cbn [flat_map]. f_equal.
  rewrite <- IH. destruct l as [|y l]; [reflexivity|].
  rewrite join_cons. cbn [flat_map]. rewrite !filter_app. reflexivity.
Qed.

(** X6. Whitespace reduction never touches a character that is not
    whitespace: the other characters of the output are those of the input,
    in the same order. *)
Theorem whitespace_reduction_keeps_text (preserve_newlines : bool) (t out : str) :
  apply (WhitespaceReductionAction preserve_newlines) t = Ok out ->
  text_of out = text_of t.
Proof.
  rewrite whitespace_reduction_apply. intros [= <-]. destruct preserve_newlines.
  - rewrite <- (join_split NL t) at 2. rewrite !text_of_join.
    generalize (split NL t). intro l. induction l as [|x l IH]; [reflexivity|].
    cbn [map flat_map]. rewrite IH. f_equal.
    exact (proj2 (proj2 (proj2 (reduce_shape x)))).
  - exact (proj2 (proj2 (proj2 (reduce_shape t)))).
Qed.

Lemma whitespace_reduction_keeps_text_witness :
  text_of (text ["a b"; "c"]%string) = text_of (text [" a   b "; "c  "]%string).
Proof.
  apply (@whitespace_reduction_keeps_text true
           (text [" a   b "; "c  "]%string) (text ["a b"; "c"]%string)).
  reflexivity.
Defined.

(** ** Line joining *)

Lemma in_join (sep : str) (l : list str) (c : char) :
  In c (join sep l) -> In c sep \/ exists x, In x l /\ In c x.
Proof.
  induction l as [|x l IH]; [simpl; tauto|]. rewrite join_cons, in_app_iff.
  intros [H|H]; [right; exists x; simpl; auto|].
  apply in_flat_map in H. destruct H as [y [Hy Hc]]. apply in_app_iff in Hc.
  destruct Hc as [Hc|Hc]; [left; exact Hc | right; exists y; simpl; auto].
Qed.

Lemma in_strip (s : str) (c : char) : In c (strip s) -> In c s.
Proof.
  destruct (strip_spec s) as [l [r [E _]]]. intro H. rewrite E, !in_app_iff. tauto.
Qed.

Lemma in_but_last (s : str) (c : char) : In c (but_last s) -> In c s.
Proof.
  unfold but_last. intro H. rewrite <- (firstn_skipn (length s - 1) s), in_app_iff.
  left. exact H.
Qed.

(** X7. Line joining returns a single line: unless the separator itself
    holds a newline, there is no newline in the output. *)
Theorem line_joining_single_line (separator code out : str) :
  ~ In NL separator ->
  apply (LineJoiningAction separator) code = Ok out ->
  ~ In NL out.
Proof.
  intros Hsep. rewrite line_joining_apply. intros [= <-] Hin.
  apply in_join in Hin. destruct Hin as [Hin|[x [Hx Hin]]]; [exact (Hsep Hin)|].
  apply in_map_iff in Hx. destruct Hx as [line [<- Hline]].
  assert (Hl : In NL line).
  { unfold drop_final in Hin. destruct (endswith line separator);
      [apply in_but_last, Hin | exact Hin]. }
  unfold retained_lines in Hline. apply in_map_iff in Hline.
  destruct Hline as [raw [<- Hraw]]. apply in_strip in Hl.
  apply filter_In in Hraw. destruct Hraw as [Hraw _].
  pose proof (split_lines_free NL code) as Hfree. rewrite Forall_forall in Hfree.
  exact (Hfree raw Hraw Hl).
Qed.

Lemma line_joining_single_line_witness : ~ In NL (py "a;b").
Proof.
  apply (@line_joining_single_line (py ";") (text ["a;"; ""; " b"]%string) (py "a;b"));
    [intros [H|[]]; discriminate H | reflexivity].
Defined.

(** ** Operator space removal *)

(** A repetition fails when what follows it fails wherever it stops. *)
Lemma rep_greedy_none (A : Type) (p : char -> bool) (k : str -> option A) (s : str) :
  (forall n, k (skipn n s) = None) -> forall min, rep_greedy p min s k = None.
Proof.
  induction s as [|c s IH]; intros Hk min.
  - cbn. unfold stop_here. destruct min; [exact (Hk 0) | reflexivity].
  - assert (Hstop : stop_here min (c :: s) k = None).
    { unfold stop_here. destruct min; [exact (Hk 0) | reflexivity]. }
    cbn [rep_greedy]. destruct (p c); [|exact Hstop].
    rewrite IH; [exact Hstop|]. intro n. exact (Hk (S n)).
Qed.

Lemma in_skipn (n : nat) (s : str) (c : char) : In c (skipn n s) -> In c s.
Proof.
  intro H. rewrite <- (firstn_skipn n s), in_app_iff. right. exact H.
Qed.

(** The pattern [\s*([...])\s*] matches nowhere in a text that has none of
    the characters of the set. *)
Lemma spaces_around_no_match (cs : string) (s : str) :
  (forall c, In c s -> ~ In c (py cs)) ->
  search NOFLAG (spaces_around cs) s = None.
Proof.
  assert (Hhere : forall s, (forall c, In c s -> ~ In c (py cs)) ->
                            match_here NOFLAG (spaces_around cs) s false = None).
  { intros s0 Hs. unfold match_here, spaces_around. cbn [rmatch].
    apply rep_greedy_none. intro n.
    destruct (skipn n s0) as [|c rest] eqn:E; [reflexivity|].
    cbn [atom_ok].
    destruct (existsb (N.eqb c) (py cs)) eqn:Ex; [|reflexivity].
    exfalso. apply existsb_exists in Ex. destruct Ex as [x [Hx Hc]].
    apply N.eqb_eq in Hc. subst x.
    apply (Hs c); [|exact Hx]. apply (in_skipn n). rewrite E. left. reflexivity. }
  induction s as [|c s IH]; intro Hs; cbn [search].
  - rewrite (Hhere [] Hs). reflexivity.
  - rewrite (Hhere (c :: s) Hs), IH; [reflexivity|].
    intros d Hd. apply Hs. right. exact Hd.
Qed.

(** X8. With its default patterns, operator space removal returns a text
    that has no bracket, operator, colon or comma as it is. *)
Theorem operator_space_removal_without_operators (code : str) :
  has_operator code = false ->
  apply (OperatorSpaceRemovalAction_init None) code = Ok code.
Proof.
  intro H.
  assert (Hfree : forall c, In c code -> ~ In c operator_chars).
  { intros c Hc Hop. assert (E : has_operator code = true); [|congruence].
    unfold has_operator. apply existsb_exists. exists c. split; [exact Hc|].
    apply existsb_exists. exists c. split; [exact Hop | apply N.eqb_refl]. }
  assert (Hstep : forall cs,
             (forall c, In c (py cs) -> In c operator_chars) ->
             re_sub (spaces_around cs) [TGroup 1] code NOFLAG = Ok code).
  { intros cs Hcs. unfold re_sub. cbn [template_ok forallb groups spaces_around].
    cbn [Nat.leb Nat.add andb]. fold (spaces_around cs).
    rewrite subx_no_match; [reflexivity|].
    apply spaces_around_no_match. intros c Hc Hin. exact (Hfree c Hc (Hcs c Hin)). }
  cbn [apply OperatorSpaceRemovalAction_init]. unfold OperatorSpaceRemovalAction_apply,
    default_patterns. cbn [foldM].
  repeat (rewrite Hstep; [cbn [bind] | vm_compute; tauto]).
  reflexivity.
Qed.

Lemma operator_space_removal_without_operators_witness :
  apply (OperatorSpaceRemovalAction_init None) (py "return  x ;") = Ok (py "return  x ;").
Proof.
  apply operator_space_removal_without_operators. reflexivity.
Defined.

(** ** The composite as an object *)

(** X9. [add_action] appends to the composite's list: applying the
    composite afterwards is applying it as it was and then the new action. *)
Theorem add_action_applies_last (self : CompositeObject.t) (action : Action)
    (code : str) (h : heap) :
  CompositeObject.apply self code (CompositeObject.add_action self action h)
  = bind (CompositeObject.apply self code h) (apply action).
Proof.
  unfold CompositeObject.apply, CompositeObject.add_action, list_append.
  cbn [lists]. rewrite Nat.eqb_refl. apply apply_composite_snoc.
Qed.

(** X10. A composite built from a list that is not empty shares that list
    with its caller, so that [add_action] changes the caller's list as
    well; built from an empty list it gets a list of its own, and the
    caller's list stays empty. *)
Theorem add_action_aliasing (l : loc) (action : Action) (h : heap) :
  l < next_id h ->
  let (self, h1) := CompositeObject.init (Some l) h in
  let h2 := CompositeObject.add_action self action h1 in
  lists h2 (CompositeObject.actions self) = lists h l ++ [action]
  /\ (lists h l <> [] -> lists h2 l = lists h l ++ [action])
  /\ (lists h l = [] -> lists h2 l = []).
Proof.
  intro Hl. unfold CompositeObject.init, CompositeObject.new_list.
  destruct (lists h l) as [|a rest] eqn:E.
  - cbn. rewrite !Nat.eqb_refl.
    assert (Hne : (l =? next_id h) = false) by (apply Nat.eqb_neq; lia).
    rewrite Hne, E. repeat split; congruence.
  - cbn. rewrite !Nat.eqb_refl, E. repeat split; congruence.
Qed.

Lemma add_action_aliasing_witness :
  let h := {| lists := fun l => if l =? 0 then [EmptyLineRemovalAction] else [];
              next_id := 2 |} in
  (let (self, h1) := CompositeObject.init (Some 0) h in
   lists (CompositeObject.add_action self (LineJoiningAction (py ";")) h1) 0
   = [EmptyLineRemovalAction; LineJoiningAction (py ";")])
  /\ (let (self, h1) := CompositeObject.init (Some 1) h in
      lists (CompositeObject.add_action self (LineJoiningAction (py ";")) h1) 1 = []).
Proof.
  cbv zeta. split.
  - exact (proj1 (proj2 (@add_action_aliasing 0 (LineJoiningAction (py ";"))
                           {| lists := fun l => if l =? 0 then [EmptyLineRemovalAction] else [];
                              next_id := 2 |} ltac:(simpl; lia)))
             ltac:(discriminate)).
  - exact (proj2 (proj2 (@add_action_aliasing 1 (LineJoiningAction (py ";"))
                           {| lists := fun l => if l =? 0 then [EmptyLineRemovalAction] else [];
                              next_id := 2 |} ltac:(simpl; lia)))
             eq_refl).
Defined.

(** ** The factory *)

(** X11. For each of the five type tags, [create_action] without a name and
    without parameters succeeds and returns the action that the constructor
    of the class of that tag builds by default ([whitespace] the whitespace
    reduction, [comments] the comment removal, and so on), and that action
    cannot raise. *)
Theorem create_action_defaults (action_type : str) :
  recognized action_type ->
  exists v,
    type_tag v = Some action_type
    /\ create_action action_type None no_kwargs = Ok (default_action v)
    /\ forall code, exists out, apply (default_action v) code = Ok out.
Proof.
  unfold recognized. cbn [map In].
  intros [<-|[<-|[<-|[<-|[<-|[]]]]]];
    [exists Whitespace | exists Comments | exists EmptyLines
    | exists Operators | exists LineJoining];
    (split; [reflexivity|]); (split; [reflexivity|]);
    intro code; apply cannot_raise_total; reflexivity.
Qed.

Lemma create_action_defaults_witness :
  exists v,
    type_tag v = Some (py "operators")
    /\ create_action (py "operators") None no_kwargs = Ok (default_action v)
    /\ forall code, exists out, apply (default_action v) code = Ok out.
Proof.
  apply create_action_defaults. unfold recognized. cbn [map In]. tauto.
Defined.

(** ** The language minifiers in use *)

Lemma python_run_state (calls : list python_call) :
  forall st,
    obj_val (PythonMinifier._action (fst st))
      = CompositeMinificationAction
          (PythonMinifier.actions_for (PythonMinifier._preserve_newlines (fst st))
                                      (PythonMinifier._preserve_docstrings (fst st))) ->
    obj_id (PythonMinifier._action (fst st)) < snd st ->
    let st' := python_run calls st in
    obj_val (PythonMinifier._action (fst st'))
      = CompositeMinificationAction
          (PythonMinifier.actions_for (PythonMinifier._preserve_newlines (fst st'))
                                      (PythonMinifier._preserve_docstrings (fst st')))
    /\ obj_id (PythonMinifier._action (fst st')) < snd st'
    /\ PythonMinifier._preserve_newlines (fst st')
       = last_set python_newlines calls (PythonMinifier._preserve_newlines (fst st))
    /\ PythonMinifier._preserve_docstrings (fst st')
       = last_set python_docstrings calls (PythonMinifier._preserve_docstrings (fst st)).
Proof.
  induction calls as [|call calls IH]; intros [m next] Hval Hid; [cbn; auto|].
  cbn [python_run fold_left last_set]. cbn [fst snd] in *.
  destruct m as [pn pd a]. cbn in Hval, Hid.
  destruct call as [b|b]; destruct pn, pd, b;
    cbn in *; apply IH; cbn; auto.
Qed.

(** X12. The Python minifier depends on its current toggles only: after
    the constructor and any setter calls, the toggles have the values set
    last and [minify] applies the pipeline of these values, as a minifier
    built with them does. *)
Theorem python_minifier_follows_toggles (preserve_newlines preserve_docstrings : bool)
    (calls : list python_call) (next : oid) (code : str) :
  let m := fst (python_run calls
                  (PythonMinifier.init preserve_newlines preserve_docstrings next)) in
  let pn := last_set python_newlines calls preserve_newlines in
  let pd := last_set python_docstrings calls preserve_docstrings in
  PythonMinifier._preserve_newlines m = pn
  /\ PythonMinifier._preserve_docstrings m = pd
  /\ PythonMinifier.minify m code
     = PythonMinifier.minify (fst (PythonMinifier.init pn pd 0)) code.
Proof.
  intros m pn pd.
  destruct (@python_run_state calls
              (PythonMinifier.init preserve_newlines preserve_docstrings next))
    as [Hval [_ [Hpn Hpd]]].
  - destruct preserve_newlines, preserve_docstrings; reflexivity.
  - cbn. lia.
  - fold m in Hval, Hpn, Hpd. cbn in Hpn, Hpd. fold pn in Hpn. fold pd in Hpd.
    split; [exact Hpn|]. split; [exact Hpd|].
    unfold PythonMinifier.minify. rewrite Hval, Hpn, Hpd.
    destruct pn, pd; reflexivity.
Qed.

Lemma javascript_run_state (calls : list javascript_call) :
  forall st,
    obj_val (JavaScriptMinifier._action (fst st))
      = CompositeMinificationAction
          (JavaScriptMinifier.actions_for (JavaScriptMinifier._preserve_newlines (fst st))
                                          (JavaScriptMinifier._aggressive (fst st))) ->
    obj_id (JavaScriptMinifier._action (fst st)) < snd st ->
    let st' := javascript_run calls st in
    obj_val (JavaScriptMinifier._action (fst st'))
      = CompositeMinificationAction
          (JavaScriptMinifier.actions_for (JavaScriptMinifier._preserve_newlines (fst st'))
                                          (JavaScriptMinifier._aggressive (fst st')))
    /\ obj_id (JavaScriptMinifier._action (fst st')) < snd st'
    /\ JavaScriptMinifier._preserve_newlines (fst st')
       = last_set javascript_newlines calls (JavaScriptMinifier._preserve_newlines (fst st))
    /\ JavaScriptMinifier._aggressive (fst st')
       = last_set javascript_aggressive calls (JavaScriptMinifier._aggressive (fst st)).
Proof.
  induction calls as [|call calls IH]; intros [m next] Hval Hid; [cbn; auto|].
  cbn [javascript_run fold_left last_set]. cbn [fst snd] in *.
  destruct m as [pn ag a]. cbn in Hval, Hid.
  destruct call as [b|b]; destruct pn, ag, b;
    cbn in *; apply IH; cbn; auto.
Qed.

(** X13. The JavaScript minifier depends on its current toggles only; and
    when newlines are not preserved the aggressive toggle changes
    nothing. *)
Theorem javascript_minifier_follows_toggles (preserve_newlines aggressive : bool)
    (calls : list javascript_call) (next : oid) (code : str) :
  let m := fst (javascript_run calls
                  (JavaScriptMinifier.init preserve_newlines aggressive next)) in
  let pn := last_set javascript_newlines calls preserve_newlines in
  let ag := last_set javascript_aggressive calls aggressive in
  JavaScriptMinifier._preserve_newlines m = pn
  /\ JavaScriptMinifier._aggressive m = ag
  /\ JavaScriptMinifier.minify m code
     = JavaScriptMinifier.minify (fst (JavaScriptMinifier.init pn ag 0)) code
  /\ (pn = false ->
      JavaScriptMinifier.minify m code
      = JavaScriptMinifier.minify (fst (JavaScriptMinifier.init false (negb ag) 0)) code).
Proof.
  intros m pn ag.
  destruct (@javascript_run_state calls
              (JavaScriptMinifier.init preserve_newlines aggressive next))
    as [Hval [_ [Hpn Hag]]].
  - destruct preserve_newlines, aggressive; reflexivity.
  - cbn. lia.
  - fold m in Hval, Hpn, Hag. cbn in Hpn, Hag. fold pn in Hpn. fold ag in Hag.
    split; [exact Hpn|]. split; [exact Hag|].
    unfold JavaScriptMinifier.minify. rewrite Hval, Hpn, Hag.
    split; [destruct pn, ag; reflexivity|].
    intros ->. destruct ag; reflexivity.
Qed.

Lemma html_run_state (calls : list bool) :
  forall st,
    obj_val (HTMLMinifier._action (fst st))
      = CompositeMinificationAction
          (HTMLMinifier.actions_for (HTMLMinifier._preserve_newlines (fst st))) ->
    obj_id (HTMLMinifier._action (fst st)) < snd st ->
    let st' := html_run calls st in
    obj_val (HTMLMinifier._action (fst st'))
      = CompositeMinificationAction
          (HTMLMinifier.actions_for (HTMLMinifier._preserve_newlines (fst st')))
    /\ obj_id (HTMLMinifier._action (fst st')) < snd st'
    /\ HTMLMinifier._preserve_newlines (fst st')
       = last_set (@Some bool) calls (HTMLMinifier._preserve_newlines (fst st)).
Proof.
  induction calls as [|b calls IH]; intros [m next] Hval Hid; [cbn; auto|].
  cbn [html_run fold_left last_set]. cbn [fst snd] in *.
  destruct m as [pn a]. cbn in Hval, Hid.
  destruct pn, b; cbn in *; apply IH; cbn; auto.
Qed.

(** X14. The HTML minifier depends on its current toggle only. *)
Theorem html_minifier_follows_toggle (preserve_newlines : bool)
    (calls : list bool) (next : oid) (code : str) :
  let m := fst (html_run calls (HTMLMinifier.init preserve_newlines next)) in
  let pn := last_set (@Some bool) calls preserve_newlines in
  HTMLMinifier._preserve_newlines m = pn
  /\ HTMLMinifier.minify m code
     = HTMLMinifier.minify (fst (HTMLMinifier.init pn 0)) code.
Proof.
  intros m pn.
  destruct (@html_run_state calls (HTMLMinifier.init preserve_newlines next))
    as [Hval [_ Hpn]].
  - destruct preserve_newlines; reflexivity.
  - cbn. lia.
  - fold m in Hval, Hpn. cbn in Hpn. fold pn in Hpn.
    split; [exact Hpn|].
    unfold HTMLMinifier.minify. rewrite Hval, Hpn. destruct pn; reflexivity.
Qed.

(** X15. [minify] of the four built-in minifiers never raises, whatever the
    arguments of the constructor and the setter calls made since. *)
Theorem builtin_minifiers_never_raise (b1 b2 : bool) (next : oid) (code : str)
    (python_calls : list python_call) (javascript_calls : list javascript_call)
    (html_calls : list bool) :
  (exists out,
      PythonMinifier.minify
        (fst (python_run python_calls (PythonMinifier.init b1 b2 next))) code = Ok out)
  /\ (exists out,
        JavaScriptMinifier.minify
          (fst (javascript_run javascript_calls (JavaScriptMinifier.init b1 b2 next))) code
        = Ok out)
  /\ (exists out, CSSMinifier.minify (fst (CSSMinifier.init next)) code = Ok out)
  /\ (exists out,
        HTMLMinifier.minify (fst (html_run html_calls (HTMLMinifier.init b1 next))) code
        = Ok out).
Proof.
  split; [|split; [|split]].
  - destruct (@python_run_state python_calls (PythonMinifier.init b1 b2 next))
      as [Hval _]; [destruct b1, b2; reflexivity | cbn; lia |].
    unfold PythonMinifier.minify. rewrite Hval. apply cannot_raise_total.
    match goal with |- context [PythonMinifier.actions_for ?x ?y] => destruct x, y end;
      reflexivity.
  - destruct (@javascript_run_state javascript_calls (JavaScriptMinifier.init b1 b2 next))
      as [Hval _]; [destruct b1, b2; reflexivity | cbn; lia |].
    unfold JavaScriptMinifier.minify. rewrite Hval. apply cannot_raise_total.
    match goal with |- context [JavaScriptMinifier.actions_for ?x ?y] => destruct x, y end;
      reflexivity.
  - apply cannot_raise_total. reflexivity.
  - destruct (@html_run_state html_calls (HTMLMinifier.init b1 next))
      as [Hval _]; [destruct b1; reflexivity | cbn; lia |].
    unfold HTMLMinifier.minify. rewrite Hval. apply cannot_raise_total.
    match goal with |- context [HTMLMinifier.actions_for ?x] => destruct x end;
      reflexivity.
Qed.

(** X16. A setter called with a value that differs replaces the composite
    by a new object: the action of the minifier then has an identity that
    no object had before, so the old composite is never changed in place. *)
Theorem setters_replace_the_composite (b1 b2 : bool) (next : oid)
    (python_calls : list python_call) (javascript_calls : list javascript_call)
    (html_calls : list bool) :
  (let st := python_run python_calls (PythonMinifier.init b1 b2 next) in
   let m1 := fst (PythonMinifier.set_preserve_newlines (fst st)
                    (negb (PythonMinifier._preserve_newlines (fst st))) (snd st)) in
   let m2 := fst (PythonMinifier.set_preserve_docstrings (fst st)
                    (negb (PythonMinifier._preserve_docstrings (fst st))) (snd st)) in
   obj_id (PythonMinifier._action (fst st)) < snd st
   /\ obj_id (PythonMinifier._action m1) = snd st
   /\ obj_id (PythonMinifier._action m2) = snd st)
  /\ (let st := javascript_run javascript_calls (JavaScriptMinifier.init b1 b2 next) in
      let m1 := fst (JavaScriptMinifier.set_preserve_newlines (fst st)
                       (negb (JavaScriptMinifier._preserve_newlines (fst st))) (snd st)) in
      let m2 := fst (JavaScriptMinifier.set_aggressive (fst st)
                       (negb (JavaScriptMinifier._aggressive (fst st))) (snd st)) in
      obj_id (JavaScriptMinifier._action (fst st)) < snd st
      /\ obj_id (JavaScriptMinifier._action m1) = snd st
      /\ obj_id (JavaScriptMinifier._action m2) = snd st)
  /\ (let st := html_run html_calls (HTMLMinifier.init b1 next) in
      let m1 := fst (HTMLMinifier.set_preserve_newlines (fst st)
                       (negb (HTMLMinifier._preserve_newlines (fst st))) (snd st)) in
      obj_id (HTMLMinifier._action (fst st)) < snd st
      /\ obj_id (HTMLMinifier._action m1) = snd st).
Proof.
  split; [|split].
  - intros st m1 m2.
    destruct (@python_run_state python_calls (PythonMinifier.init b1 b2 next))
      as [_ [Hid _]]; [destruct b1, b2; reflexivity | cbn; lia |].
    fold st in Hid. split; [exact Hid|].
    subst m1 m2. destruct (fst st) as [pn pd a]. destruct pn, pd; split; reflexivity.
  - intros st m1 m2.
    destruct (@javascript_run_state javascript_calls (JavaScriptMinifier.init b1 b2 next))
      as [_ [Hid _]]; [destruct b1, b2; reflexivity | cbn; lia |].
    fold st in Hid. split; [exact Hid|].
    subst m1 m2. destruct (fst st) as [pn ag a]. destruct pn, ag; split; reflexivity.
  - intros st m1.
    destruct (@html_run_state html_calls (HTMLMinifier.init b1 next))
      as [_ [Hid _]]; [destruct b1; reflexivity | cbn; lia |].
    fold st in Hid. split; [exact Hid|].
    subst m1. destruct (fst st) as [pn a]. destruct pn; reflexivity.
Qed.

(** ** The job *)

(** A text without carriage returns that is written reads back as it
    is, on a platform whose line separator is the newline or a carriage
    return and a newline. *)
Lemma read_back (ls out : str) :
  ls = [NL] \/ ls = [CR; NL] ->
  ~ In CR out ->
  universal_newlines (to_linesep ls out) = out.
Proof.
  intros Hls. induction out as [|c out IH]; intro Hcr; [reflexivity|].
  assert (Hc : (c =? CR)%N = false).
  { apply N.eqb_neq. intro E. apply Hcr. left. exact E. }
  assert (Hout : ~ In CR out) by (intro H; apply Hcr; right; exact H).
  specialize (IH Hout). unfold to_linesep in *. cbn [flat_map].
  destruct (N.eqb_spec c NL) as [->|Hnl].
  - destruct Hls as [-> | ->]; cbn; rewrite IH; reflexivity.
  - cbn [app universal_newlines]. rewrite Hc, IH. reflexivity.
Qed.

(** What a completed write has stored reads back as the text written. *)
Lemma write_file_read_back (d d' : filesystem) (p out : str) :
  FileProcessor.write_file d p out = (Ok tt, d') ->
  linesep d = [NL] \/ linesep d = [CR; NL] ->
  ~ In CR out ->
  FileProcessor.read_file d' p = Ok out.
Proof.
  intros Ew Hls Hcr.
  pose proof (write_file_effect d p out) as H. rewrite Ew in H. cbn [fst snd] in H.
  destruct H as [_ [_ [_ [_ [Hfile _]]]]].
  unfold FileProcessor.read_file. rewrite Hfile, (@read_back _ _ Hls Hcr). reflexivity.
Qed.



(** X18. A job run again right after it returned finds nothing to do, when
    the minified text has no carriage return and the minified path is not
    the source itself: the second run returns [False], prints that nothing
    changed and writes nothing. *)
Theorem execute_twice (job : MinificationJob.t) (w : world) (b : bool) (code out : str) :
  MinificationJob.file_path job <> MinificationJob.minified_path job ->
  linesep (fs w) = [NL] \/ linesep (fs w) = [CR; NL] ->
  FileProcessor.read_file (fs w) (MinificationJob.file_path job) = Ok code ->
  LanguageMinifier.minify (MinificationJob.minifier job) code = Ok out ->
  ~ In CR out ->
  fst (MinificationJob.execute job w) = Ok b ->
  let w1 := snd (MinificationJob.execute job w) in
  MinificationJob.execute job w1
  = (Ok false, print (NoChange (MinificationJob.minified_path job)) w1).
Proof.
  intros Hne Hls Hsrc Hmin Hcr Hb w1. subst w1.
  assert (Hsrc' : FileProcessor.read_file (fs (snd (MinificationJob.execute job w)))
                    (MinificationJob.file_path job) = Ok code).
  { unfold FileProcessor.read_file in *. rewrite execute_frame by exact Hne. exact Hsrc. }
  apply (execute_identical _ _ Hsrc' Hmin).
  destruct (execute_outcome job w) as [e | code1 out1 Hsrc1 Hmin1 Hold | code1 out1 d Hsrc1 Hmin1 Hold Ew
                                       | code1 out1 e d Hsrc1 Hmin1 Hold Ew];
    cbn [fst snd print fs] in *; try discriminate;
    assert (out1 = out) by congruence; subst out1.
  - exact Hold.
  - exact (@write_file_read_back _ _ _ _ Ew Hls Hcr).
Qed.

Lemma execute_twice_witness :
  MinificationJob.execute example_job
    (snd (MinificationJob.execute example_job example_source_only))
  = (Ok false,
     print (NoChange (py "p/a.min.js"))
           (snd (MinificationJob.execute example_job example_source_only))).
Proof.
  apply (@execute_twice example_job example_source_only true (py "x  =  1;") (py "x = 1;")).
  - intro H. vm_compute in H. discriminate H.
  - left. reflexivity.
  - reflexivity.
  - reflexivity.
  - intro H. vm_compute in H. intuition discriminate.
  - reflexivity.
Defined.

(** A minified text with a carriage return is written again by every run:
    the file holds the carriage return, and reading gives a newline for
    it, which is not the text that the minifier gives. *)
Example execute_twice_carriage_return :
  let keep := {| LanguageMinifier.name := py "keep";
                 LanguageMinifier.file_extensions := [py ".txt"];
                 LanguageMinifier.minify := fun _ => Ok [97; CR; 98]%N |} in
  let job := MinificationJob.init posix_splitext (py "a.txt") keep (py ".min") in
  let w := {| fs := {| files := fun p => if str_eqb p (py "a.txt")
                                         then Some (Text (py "a")) else None;
                       read_only := fun _ => false; written := [];
                       linesep := [NL]; write_fault := fun _ => None |};
              stdout := [] |} in
  let w1 := snd (MinificationJob.execute job w) in
  let w2 := snd (MinificationJob.execute job w1) in
  fst (MinificationJob.execute job w) = Ok true
  /\ fst (MinificationJob.execute job w1) = Ok true
  /\ written (fs w2) = [py "a.min.txt"; py "a.min.txt"]
  /\ FileProcessor.read_file (fs w2) (py "a.min.txt") = Ok [97; NL; 98]%N.
Proof.
  vm_compute. repeat split.
Qed.

(** Reading in text mode: [a\rb\r\nc\n\rd\r] is read as
    [a\nb\nc\n\nd\n]. *)
Example universal_newlines_mixed :
  universal_newlines [97; CR; 98; CR; NL; 99; NL; CR; 100; CR]%N
  = [97; NL; 98; NL; 99; NL; NL; 100; NL]%N.
Proof. reflexivity. Qed.

(** A minified text that cannot be encoded: the job raises, and the
    minified file that was there is left empty. *)
Example execute_encode_error :
  let bad := {| LanguageMinifier.name := py "bad";
                LanguageMinifier.file_extensions := [py ".txt"];
                LanguageMinifier.minify := fun _ => Ok [97; 55296; 98]%N |} in
  let job := MinificationJob.init posix_splitext (py "a.txt") bad (py ".min") in
  let w := {| fs := {| files := fun p => if str_eqb p (py "a.txt")
                                         then Some (Text (py "a"))
                                         else if str_eqb p (py "a.min.txt")
                                         then Some (Text (py "earlier"))
                                         else None;
                       read_only := fun _ => false; written := [];
                       linesep := [NL]; write_fault := fun _ => None |};
              stdout := [] |} in
  let w1 := snd (MinificationJob.execute job w) in
  fst (MinificationJob.execute job w) = Raise UnicodeEncodeError
  /\ files (fs w1) (py "a.min.txt") = Some (Text [])
  /\ written (fs w1) = []
  /\ stdout w1 = [ErrorProcessing (py "a.txt") UnicodeEncodeError].
Proof.
  vm_compute. repeat split.
Qed.

(** ** Paths *)

Lemma rfind_from_absent (c : char) (p : str) :
  ~ In c p -> forall i found, rfind_from c p i found = found.
Proof.
  induction p as [|x p IH]; intros H i found; [reflexivity|].
  cbn [rfind_from]. destruct (N.eqb_spec x c) as [->|Hne]; [exfalso; apply H; left; reflexivity|].
  apply IH. intro Hin. apply H. right. exact Hin.
Qed.

Lemma rfind_from_last (c : char) (p : str) :
  In c p ->
  forall i found,
    exists l r, p = l ++ c :: r /\ ~ In c r
                /\ rfind_from c p i found = Some (i + length l).
Proof.
  induction p as [|x p IH]; intros H i found; [contradiction|].
  cbn [rfind_from]. destruct (in_dec N.eq_dec c p) as [Hin|Hout].
  - destruct (IH Hin (S i) (if (x =? c)%N then Some i else found)) as [l [r [E [Hr Hf]]]].
    exists (x :: l), r. rewrite Hf, E. repeat split; [exact Hr|]. cbn. f_equal. lia.
  - destruct H as [->|H]; [|contradiction].
    exists [], p. rewrite N.eqb_refl, rfind_from_absent by exact Hout.
    repeat split; [exact Hout|]. cbn. f_equal. lia.
Qed.

(** [rfind] gives the place of the last occurrence, or nothing when there
    is none. *)
Lemma rfind_spec (c : char) (p : str) :
  match rfind c p with
  | Some i => exists l r, p = l ++ c :: r /\ ~ In c r /\ i = length l
  | None => ~ In c p
  end.
Proof.
  unfold rfind. destruct (in_dec N.eq_dec c p) as [Hin|Hout].
  - destruct (rfind_from_last c p Hin 0 None) as [l [r [E [Hr Hf]]]].
    rewrite Hf. exists l, r. auto.
  - rewrite rfind_from_absent by exact Hout. exact Hout.
Qed.

(** X19. [get_minified_path] on a POSIX path puts the suffix between the
    two parts that [splitext] gives: they make up the path, and the second
    is empty or a dot followed by characters that are neither dots nor
    slashes.  With an empty suffix the result is the path itself. *)
Theorem get_minified_path_inserts_suffix (file_path suffix : str) :
  exists base ext,
    file_path = base ++ ext
    /\ FileProcessor.get_minified_path posix_splitext file_path suffix
       = base ++ suffix ++ ext
    /\ (ext = [] \/ exists e, ext = 46%N :: e /\ ~ In 46%N e /\ ~ In 47%N e)
    /\ FileProcessor.get_minified_path posix_splitext file_path [] = file_path.
Proof.
  unfold FileProcessor.get_minified_path.
  assert (Hsplit : let (base, ext) := posix_splitext file_path in
                   file_path = base ++ ext
                   /\ (ext = [] \/ exists e, ext = 46%N :: e /\ ~ In 46%N e /\ ~ In 47%N e)).
  { unfold posix_splitext.
    pose proof (rfind_spec 46%N file_path) as Hdot.
    pose proof (rfind_spec 47%N file_path) as Hsep.
    destruct (rfind 46%N file_path) as [dotIndex|];
      [|split; [symmetry; apply app_nil_r | left; reflexivity]].
    destruct Hdot as [l [r [E [Hr Hi]]]].
    match goal with |- context [if ?c then _ else _] => destruct c eqn:Ec end;
      [|split; [symmetry; apply app_nil_r | left; reflexivity]].
    apply andb_true_iff in Ec. destruct Ec as [Hle _]. apply Nat.leb_le in Hle.
    split; [symmetry; apply firstn_skipn|]. right. exists r.
    assert (Eext : skipn dotIndex file_path = 46%N :: r).
    { rewrite E, Hi, skipn_app, Nat.sub_diag, skipn_all. reflexivity. }
    rewrite Eext. repeat split; [exact Hr|].
    destruct (rfind 47%N file_path) as [i|]; [|intro H; apply Hsep; rewrite E, in_app_iff;
                                               right; right; exact H].
    destruct Hsep as [l2 [r2 [E2 [Hr2 Hi2]]]]. subst i dotIndex.
    intro Hin. apply Hr2.
    assert (Er2 : r2 = skipn (S (length l2)) file_path).
    { rewrite E2. replace (S (length l2)) with (length (l2 ++ [47%N]))
        by (rewrite length_app; cbn; lia).
      change (l2 ++ 47%N :: r2) with (l2 ++ [47%N] ++ r2).
      rewrite app_assoc, skipn_app, Nat.sub_diag, skipn_all. reflexivity. }
    rewrite Er2, E. rewrite skipn_app.
    replace (S (length l2) - length l) with 0 by lia.
    rewrite in_app_iff. right. cbn [skipn]. right. exact Hin. }
  destruct (posix_splitext file_path) as [base ext].
  destruct Hsplit as [E Hext]. exists base, ext.
  repeat split; [exact E | exact Hext | symmetry; exact E].
Qed.

(** ** The registry *)

Lemma dict_get_set (V : Type) (d : list (str * V)) (k k' : str) (v : V) :
  dict_get (dict_set d k v) k' = if str_eqb k k' then Some v else dict_get d k'.
Proof.
  induction d as [|[k0 v0] d IH]; cbn [dict_set dict_get].
  - reflexivity.
  - destruct (str_eqb k0 k) eqn:E0; cbn [dict_get].
    + apply str_eqb_eq in E0. subst k0. destruct (str_eqb k k'); reflexivity.
    + destruct (str_eqb k0 k') eqn:E1; [|exact IH].
      apply str_eqb_eq in E1. subst k'. rewrite (proj2 (str_eqb_neq _ _)); [reflexivity|].
      apply str_eqb_neq in E0. congruence.
Qed.

Lemma dict_set_keys (V : Type) (d : list (str * V)) (k : str) (v : V) :
  map fst (dict_set d k v)
  = if existsb (str_eqb k) (map fst d) then map fst d else map fst d ++ [k].
Proof.
  induction d as [|[k0 v0] d IH]; cbn [dict_set map existsb fst]; [reflexivity|].
  destruct (str_eqb k0 k) eqn:E0.
  - apply str_eqb_eq in E0. subst k0. rewrite (proj2 (str_eqb_eq _ _) eq_refl). reflexivity.
  - rewrite (proj2 (str_eqb_neq k k0)); [|apply str_eqb_neq in E0; congruence].
    cbn [map fst orb]. rewrite IH. destruct (existsb (str_eqb k) (map fst d)); reflexivity.
Qed.

Section RegistryProperties.
Variable lower : str -> str.

(** X20. After a registration, a name finds the minifier registered when
    both have the same lower-case form, and finds what it found before
    otherwise: the lookup by name ignores case, and a registration under a
    name in use replaces the earlier minifier. *)
Theorem register_then_get_by_name (self : MinifierRegistry.t)
    (minifier : LanguageMinifier.t) (name : str) :
  MinifierRegistry.get_minifier_by_name lower
    (MinifierRegistry.register_minifier lower self minifier) name
  = if str_eqb (lower (LanguageMinifier.name minifier)) (lower name)
    then Some minifier
    else MinifierRegistry.get_minifier_by_name lower self name.
Proof.
  unfold MinifierRegistry.get_minifier_by_name, MinifierRegistry.register_minifier.
  cbn [MinifierRegistry._minifiers]. apply dict_get_set.
Qed.

Lemma dict_get_register_extensions (m : LanguageMinifier.t) (exts : list str) (k : str) :
  forall d,
    dict_get (fold_left (fun d ext => dict_set d (lower ext) m) exts d) k
    = if existsb (str_eqb k) (map lower exts) then Some m else dict_get d k.
Proof.
  induction exts as [|x exts IH]; intro d; [reflexivity|].
  cbn [fold_left map existsb]. rewrite IH, dict_get_set.
  destruct (existsb (str_eqb k) (map lower exts)).
  - rewrite orb_true_r. reflexivity.
  - rewrite orb_false_r. destruct (str_eqb k (lower x)) eqn:E.
    + apply str_eqb_eq in E. subst k. rewrite (proj2 (str_eqb_eq _ _) eq_refl). reflexivity.
    + rewrite (proj2 (str_eqb_neq (lower x) k)); [reflexivity|].
      apply str_eqb_neq in E. congruence.
Qed.

(** X21. After a registration, an extension (with or without its dot)
    finds the minifier registered when its lower-case form is that of one
    of the minifier's extensions, and finds what it found before
    otherwise. *)
Theorem register_then_get_for_extension (self : MinifierRegistry.t)
    (minifier : LanguageMinifier.t) (extension : str) :
  MinifierRegistry.get_minifier_for_extension lower
    (MinifierRegistry.register_minifier lower self minifier) extension
  = if ProjectMinifier.mem (lower (dotted extension))
         (map lower (LanguageMinifier.file_extensions minifier))
    then Some minifier
    else MinifierRegistry.get_minifier_for_extension lower self extension.
Proof.
  unfold MinifierRegistry.get_minifier_for_extension, MinifierRegistry.register_minifier,
    ProjectMinifier.mem.
  cbn [MinifierRegistry._extension_map]. fold (dotted extension).
  apply dict_get_register_extensions.
Qed.

Lemma register_extension_keys (m : LanguageMinifier.t) (exts : list str) :
  forall d : list (str * LanguageMinifier.t),
    NoDup (map fst d) ->
    let d' := fold_left (fun d ext => dict_set d (lower ext) m) exts d in
    NoDup (map fst d')
    /\ forall e, In e (map fst d') <-> In e (map fst d) \/ In e (map lower exts).
Proof.
  induction exts as [|x exts IH]; intros d Hd.
  - cbn. split; [exact Hd | intro e; tauto].
  - cbn [fold_left map].
    assert (Hkeys : NoDup (map fst (dict_set d (lower x) m))
                    /\ forall e, In e (map fst (dict_set d (lower x) m))
                                 <-> In e (map fst d) \/ e = lower x).
    { rewrite dict_set_keys.
      destruct (existsb (str_eqb (lower x)) (map fst d)) eqn:E.
      - split; [exact Hd|]. intro e. split; [tauto|]. intros [H| ->]; [exact H|].
        apply existsb_exists in E. destruct E as [k [Hk Ek]].
        apply str_eqb_eq in Ek. subst k. exact Hk.
      - split.
        + apply NoDup_app; [exact Hd | constructor; [tauto | constructor] |].
          intros k Hk [<-|[]].
          assert (E' : existsb (str_eqb (lower x)) (map fst d) = true); [|congruence].
          apply existsb_exists. exists (lower x). split; [exact Hk | apply str_eqb_eq; reflexivity].
        + intro e. rewrite in_app_iff. cbn. intuition congruence. }
    destruct Hkeys as [Hnd Hin].
    destruct (IH _ Hnd) as [H1 H2]. split; [exact H1|].
    intro e. rewrite H2, Hin. cbn [In]. intuition congruence.
Qed.

(** X22. The supported extensions of a registry in use are the lower-case
    forms of the extensions of the minifiers registered, each listed
    once. *)
Theorem supported_extensions_of_registry (minifiers : list LanguageMinifier.t) :
  let registry := registry_of lower minifiers in
  NoDup (MinifierRegistry.get_supported_extensions registry)
  /\ forall e,
       In e (MinifierRegistry.get_supported_extensions registry)
       <-> exists m x, In m minifiers
                       /\ In x (LanguageMinifier.file_extensions m) /\ e = lower x.
Proof.
  unfold registry_of, MinifierRegistry.get_supported_extensions.
  assert (H : forall ms r,
             NoDup (map fst (MinifierRegistry._extension_map r)) ->
             let r' := fold_left (MinifierRegistry.register_minifier lower) ms r in
             NoDup (map fst (MinifierRegistry._extension_map r'))
             /\ forall e,
                  In e (map fst (MinifierRegistry._extension_map r'))
                  <-> In e (map fst (MinifierRegistry._extension_map r))
                      \/ exists m x, In m ms
                                     /\ In x (LanguageMinifier.file_extensions m)
                                     /\ e = lower x).
  { induction ms as [|m ms IH]; intros r Hr.
    - cbn. split; [exact Hr|]. intro e. split; [tauto|].
      intros [H|[m [x [[] _]]]]. exact H.
    - cbn [fold_left].
      destruct (register_extension_keys m (LanguageMinifier.file_extensions m) _ Hr)
        as [Hnd Hin].
      destruct (IH (MinifierRegistry.register_minifier lower r m) Hnd) as [H1 H2].
      split; [exact H1|]. intro e.
      assert (Hin' : In e (map fst (MinifierRegistry._extension_map
                                      (MinifierRegistry.register_minifier lower r m)))
                     <-> In e (map fst (MinifierRegistry._extension_map r))
                         \/ In e (map lower (LanguageMinifier.file_extensions m)))
        by exact (Hin e).
      split.
      + intro He. apply H2 in He. destruct He as [He|[m' [x [Hm' [Hx ->]]]]].
        * apply Hin' in He. destruct He as [He|He]; [left; exact He | right].
          apply in_map_iff in He. destruct He as [x [<- Hx]].
          exists m, x. cbn. auto.
        * right. exists m', x. cbn. auto.
      + intros [He|[m' [x [[<-|Hm'] [Hx ->]]]]]; apply H2.
        * left. apply Hin'. left. exact He.
        * left. apply Hin'. right. apply in_map. exact Hx.
        * right. exists m', x. auto. }
  destruct (H minifiers MinifierRegistry.init) as [H1 H2]; [constructor|].
  split; [exact H1|]. intro e. rewrite H2. cbn. split; [intros [[]|He]; exact He | auto].
Qed.

End RegistryProperties.

(** ** The project walker *)

Section WalkerProperties.
Variable lower : str -> str.
Variable splitext : str -> str * str.
Variable path_join : str -> str -> str.

(** One file of the walk: either no file changes, or the file is not
    marked, its extension is to be processed and only the file at its
    minified path may change, which is the path written if one is. *)
Lemma visit_file_writes (self : ProjectMinifier.t) (exts : list str) (suffix folder : str)
    (st : ProjectMinifier.state) (filename : str) :
  let st' := ProjectMinifier.visit_file lower splitext path_join self exts suffix folder
               st filename in
  let target := FileProcessor.get_minified_path splitext (path_join folder filename) suffix in
  fs (ProjectMinifier.the_world st') = fs (ProjectMinifier.the_world st)
  \/ (contains filename (py ".min.") = false
      /\ ProjectMinifier.mem (lower (snd (splitext filename))) exts = true
      /\ (written (fs (ProjectMinifier.the_world st'))
          = written (fs (ProjectMinifier.the_world st))
          \/ written (fs (ProjectMinifier.the_world st'))
             = target :: written (fs (ProjectMinifier.the_world st)))
      /\ forall q, q <> target ->
                   files (fs (ProjectMinifier.the_world st')) q
                   = files (fs (ProjectMinifier.the_world st)) q).
Proof.
  unfold ProjectMinifier.visit_file.
  destruct (contains filename (py ".min.")); [left; reflexivity|].
  destruct (ProjectMinifier.mem _ exts) eqn:Emem; [|left; reflexivity].
  destruct (MinifierRegistry.get_minifier_for_extension _ _ _) as [minifier|];
    [|left; reflexivity].
  match goal with |- context [MinificationJob.execute ?j ?w] =>
    pose proof (execute_cases j w) as Hcases;
    pose proof (execute_frame j w) as Hframe;
    destruct (MinificationJob.execute j w) as [r w'] end.
  cbn [fst snd MinificationJob.minified_path MinificationJob.init] in Hcases, Hframe.
  right. split; [reflexivity|]. split; [reflexivity|].
  assert (Hw : written (fs w') = written (fs (ProjectMinifier.the_world st))
               \/ written (fs w')
                  = FileProcessor.get_minified_path splitext (path_join folder filename) suffix
                    :: written (fs (ProjectMinifier.the_world st))).
  { destruct Hcases as [[_ [Hw _]] | [_ [Hw _]]]; [right | left]; exact Hw. }
  destruct r as [[|]|e]; cbn [ProjectMinifier.the_world]; split; assumption.
Qed.

Lemma visit_files_only_written (self : ProjectMinifier.t) (exts : list str)
    (suffix folder : str) (ok : str -> Prop) (w0 : world) (filenames : list str) :
  (forall filename,
      In filename filenames -> contains filename (py ".min.") = false ->
      ProjectMinifier.mem (lower (snd (splitext filename))) exts = true ->
      ok (FileProcessor.get_minified_path splitext (path_join folder filename) suffix)) ->
  forall st,
    only_written ok w0 st ->
    only_written ok w0
      (fold_left (ProjectMinifier.visit_file lower splitext path_join self exts suffix folder)
                 filenames st).
Proof.
  induction filenames as [|f l IH]; intros Hok st Hst; [exact Hst|].
  cbn [fold_left]. apply IH; [intros g Hg; apply Hok; right; exact Hg|].
  destruct Hst as [[paths [Hw Hall]] Hframe].
  destruct (visit_file_writes self exts suffix folder st f) as [Hsame|[Hm [He [Hw' Hf']]]].
  - split; [exists paths|]; rewrite Hsame; auto.
  - assert (Hf : ok (FileProcessor.get_minified_path splitext (path_join folder f) suffix))
      by (apply Hok; [left; reflexivity | exact Hm | exact He]).
    split.
    + destruct Hw' as [Hw'|Hw'].
      * exists paths. rewrite Hw'. auto.
      * exists (FileProcessor.get_minified_path splitext (path_join folder f) suffix :: paths).
        rewrite Hw', Hw. split; [reflexivity|].
        intros q [<-|Hq]; [exact Hf | exact (Hall q Hq)].
    + intros q Hq. rewrite Hf'; [apply Hframe, Hq|]. intros ->. exact (Hq Hf).
Qed.

(** X23. The only files that [minify_project] changes are minified paths
    of files of the walk, each derived from a file that is in a directory
    not to be skipped, that does not carry [.min.] and whose extension is
    one to process: the paths written are such paths, and the file at any
    other path is as it was. *)
Theorem minify_project_only_writes_outputs (self : ProjectMinifier.t)
    (walk : list (str * list str * list str))
    (languages extensions : option (list str)) (suffix : str)
    (extra_to_skip : option (list str)) (w : world) :
  let '(_, _, _, w') :=
    ProjectMinifier.minify_project lower splitext path_join self walk
      languages extensions suffix extra_to_skip w in
  let output :=
    output_of lower splitext path_join
      (ProjectMinifier.files_to_skip self ++ default extra_to_skip [])
      (ProjectMinifier._get_extensions_to_process lower self languages extensions)
      suffix walk in
  (exists paths,
      written (fs w') = paths ++ written (fs w) /\ forall q, In q paths -> output q)
  /\ forall q, ~ output q -> files (fs w') q = files (fs w) q.
Proof.
  unfold ProjectMinifier.minify_project.
  rewrite files_to_skip_extended.
  set (self' := ProjectMinifier.extend_files_to_skip self extra_to_skip).
  set (to_skip := ProjectMinifier.files_to_skip self ++ default extra_to_skip []).
  assert (Hexts : ProjectMinifier._get_extensions_to_process lower self' languages extensions
                  = ProjectMinifier._get_extensions_to_process lower self languages extensions).
  { unfold self'. destruct extra_to_skip as [[|x l]|]; reflexivity. }
  rewrite Hexts.
  set (exts := ProjectMinifier._get_extensions_to_process lower self languages extensions).
  set (ok := output_of lower splitext path_join to_skip exts suffix walk).
  assert (H : forall part : list (str * list str * list str),
             (forall entry, In entry part -> In entry walk) ->
             forall st,
               only_written ok w st ->
               only_written ok w
                 (fold_left
                    (fun st entry =>
                       let '(foldername, _, filenames) := entry in
                       if ProjectMinifier.skip_this_dir to_skip foldername then st
                       else fold_left
                              (ProjectMinifier.visit_file lower splitext path_join
                                 self' exts suffix foldername) filenames st)
                    part st)).
  { induction part as [|[[folder subs] filenames] rest IH]; intros Hpart st Hst; [exact Hst|].
    cbn [fold_left]. apply IH; [intros entry He; apply Hpart; right; exact He|].
    destruct (ProjectMinifier.skip_this_dir to_skip folder) eqn:Eskip; [exact Hst|].
    apply visit_files_only_written; [|exact Hst].
    intros filename Hf Hm He. exists folder, subs, filenames, filename.
    repeat split; auto. apply Hpart. left. reflexivity. }
  apply (H walk (fun _ He => He)
           {| ProjectMinifier.processed := 0; ProjectMinifier.skipped := 0;
              ProjectMinifier.the_world := w |}).
  split; [exists []; split; [reflexivity | intros q []] | reflexivity].
Qed.

End WalkerProperties.

Section ExtensionsProperties.
Variable lower : str -> str.

(** X24. The extensions to process fall back on everything the registry
    supports: when neither languages nor extensions are given, and also
    when the languages given are all unknown to the registry. *)
Theorem extensions_fall_back_on_all (self : ProjectMinifier.t) (languages : list str) :
  (forall l, In l languages ->
             MinifierRegistry.get_minifier_by_name lower
               (ProjectMinifier.minifier_registry self) l = None) ->
  ProjectMinifier._get_extensions_to_process lower self (Some languages) None
    = MinifierRegistry.get_supported_extensions (ProjectMinifier.minifier_registry self)
  /\ ProjectMinifier._get_extensions_to_process lower self None None
     = MinifierRegistry.get_supported_extensions (ProjectMinifier.minifier_registry self).
Proof.
  intro H. split; [|reflexivity].
  unfold ProjectMinifier._get_extensions_to_process. cbn [default map].
  rewrite app_nil_r.
  assert (E : flat_map
                (fun file_type =>
                   match MinifierRegistry.get_minifier_by_name lower
                           (ProjectMinifier.minifier_registry self) file_type with
                   | Some minifier => LanguageMinifier.file_extensions minifier
                   | None => []
                   end) languages = []).
  { induction languages as [|l ls IH]; [reflexivity|]. cbn [flat_map].
    rewrite (H l (or_introl eq_refl)), IH; [reflexivity|].
    intros l' Hl'. apply H. right. exact Hl'. }
  rewrite E. reflexivity.
Qed.

(** X25. Every extension given to [minify_project] is among the extensions
    to process, in lower case and with its dot, whatever the languages
    given; and then nothing is added from the rest of the registry. *)
Theorem extensions_given_are_processed (self : ProjectMinifier.t)
    (languages : option (list str)) (extensions : list str) (ext : str) :
  In ext extensions ->
  let to_process :=
    ProjectMinifier._get_extensions_to_process lower self languages (Some extensions) in
  ProjectMinifier.mem (lower (dotted ext)) to_process = true
  /\ forall e,
       In e to_process ->
       In e (map (fun x => lower (dotted x)) extensions)
       \/ exists l m, In l (default languages [])
                      /\ MinifierRegistry.get_minifier_by_name lower
                           (ProjectMinifier.minifier_registry self) l = Some m
                      /\ In e (LanguageMinifier.file_extensions m).
Proof.
  intros Hin to_process. subst to_process.
  unfold ProjectMinifier._get_extensions_to_process. cbn [default]. fold dotted.
  set (from_languages := flat_map _ (default languages [])).
  set (from_extensions := map _ extensions).
  assert (Hmem : In (lower (dotted ext)) (from_languages ++ from_extensions)).
  { apply in_app_iff. right. unfold from_extensions.
    apply (in_map (fun x => lower (dotted x))). exact Hin. }
  destruct (from_languages ++ from_extensions) as [|x l] eqn:E; [contradiction|].
  rewrite <- E. split.
  - unfold ProjectMinifier.mem. apply existsb_exists.
    exists (lower (dotted ext)). split; [rewrite E; exact Hmem | apply str_eqb_eq; reflexivity].
  - intros e He. apply in_app_iff in He. destruct He as [He|He]; [right | left; exact He].
    unfold from_languages in He. apply in_flat_map in He. destruct He as [l0 [Hl0 He]].
    destruct (MinifierRegistry.get_minifier_by_name lower
                (ProjectMinifier.minifier_registry self) l0) as [m|] eqn:Em; [|contradiction].
    exists l0, m. auto.
Qed.

End ExtensionsProperties.

Lemma extensions_fall_back_on_all_witness :
  ProjectMinifier._get_extensions_to_process ascii_lower example_project
    (Some [py "ruby"]) None = [py ".js"].
Proof.
  apply (@extensions_fall_back_on_all ascii_lower example_project [py "ruby"]).
  intros l [<-|[]]. reflexivity.
Defined.

Lemma extensions_given_are_processed_witness :
  ProjectMinifier.mem (py ".txt")
    (ProjectMinifier._get_extensions_to_process ascii_lower example_project
       None (Some [py "TXT"])) = true.
Proof.
  apply (@extensions_given_are_processed ascii_lower example_project None
           [py "TXT"] (py "TXT")).
  left. reflexivity.
Defined.

(** ** Cleaning *)

Lemma delete_file_effect (d d' : filesystem) (p : str) :
  delete_file d p = Ok d' ->
  files d p <> None /\ files d' p = None
  /\ (forall q, q <> p -> files d' q = files d q)
  /\ written d' = written d.
Proof.
  unfold delete_file. destruct (files d p) eqn:E; [|discriminate].
  destruct (read_only d p); [discriminate|]. intros [= <-]. cbn.
  rewrite (proj2 (str_eqb_eq _ _) eq_refl). repeat split; [congruence|].
  intros q Hq. apply str_eqb_neq in Hq. rewrite Hq. reflexivity.
Qed.

Lemma deleted_paths_snoc (l : list clean_message) (m : clean_message) :
  deleted_paths (l ++ [m])
  = deleted_paths l ++ match m with Deleted p => [p] | ErrorDeleting _ _ => [] end.
Proof.
  unfold deleted_paths. rewrite flat_map_app. cbn. rewrite app_nil_r. reflexivity.
Qed.

Section CleanProperties.
Variable lower : str -> str.
Variable splitext : str -> str * str.
Variable path_join : str -> str -> str.

Lemma clean_file_cleaned (suffix : str) (extensions : option (list str)) (folder : str)
    (ok : str -> Prop) (d0 : filesystem) (st : clean_state) (filename : str) :
  (contains filename suffix = true ->
   match extensions with
   | None => True
   | Some exts => ProjectMinifier.mem (lower (snd (splitext filename))) exts = true
   end ->
   files d0 (path_join folder filename) <> None ->
   ok (path_join folder filename)) ->
  cleaned ok d0 st ->
  cleaned ok d0 (clean_file lower splitext path_join suffix extensions folder st filename).
Proof.
  intros Hok Hst. unfold clean_file.
  destruct (contains filename suffix) eqn:Ec; [|exact Hst].
  match goal with |- context [if ?c then _ else _] => destruct c eqn:Eext end; [|exact Hst].
  destruct Hst as [Hcount [Hdel [Hframe Hwritten]]].
  destruct (delete_file (disk st) (path_join folder filename)) as [d|e] eqn:Ed.
  - destruct (delete_file_effect _ _ Ed) as [Hex [Hgone [Hothers Hw]]].
    unfold cleaned. cbn [count disk printed]. rewrite deleted_paths_snoc, length_app.
    split; [cbn; lia|]. split; [|split].
    + intros q Hq. apply in_app_iff in Hq. destruct Hq as [Hq|[<-|[]]].
      * destruct (Hdel q Hq) as [H1 H2]. split; [exact H1|].
        destruct (list_eq_dec N.eq_dec q (path_join folder filename)) as [->|Hne];
          [exact Hgone | rewrite Hothers by exact Hne; exact H2].
      * split; [|exact Hgone]. apply Hok; [reflexivity | |].
        -- destruct extensions; [exact Eext | exact I].
        -- destruct (in_dec (list_eq_dec N.eq_dec) (path_join folder filename)
                       (deleted_paths (printed st))) as [Hin|Hout].
           ++ exfalso. apply Hex. exact (proj2 (Hdel _ Hin)).
           ++ rewrite <- (Hframe _ Hout). exact Hex.
    + intros q Hq. rewrite in_app_iff in Hq.
      rewrite Hothers; [apply Hframe; tauto|]. intros ->. apply Hq. right. left. reflexivity.
    + congruence.
  - unfold cleaned. cbn [count disk printed]. rewrite deleted_paths_snoc, app_nil_r. auto.
Qed.

(** X26. [delete_minified_files] returns the number of files it deleted.
    Each of them was there, is there no more, and had the suffix in its
    name and, when extensions are given, one of them as its extension; no
    other file is changed, and nothing is written. *)
Theorem delete_minified_files_deletes_marked (walk : list (str * list str * list str))
    (suffix : str) (extensions : option (list str)) (d : filesystem) :
  let st := delete_minified_files lower splitext path_join walk suffix extensions d in
  count st = length (deleted_paths (printed st))
  /\ (forall q,
        In q (deleted_paths (printed st)) ->
        files d q <> None /\ files (disk st) q = None
        /\ exists folder subfolders filenames filename,
             In (folder, subfolders, filenames) walk /\ In filename filenames
             /\ contains filename suffix = true
             /\ match extensions with
                | None => True
                | Some exts => ProjectMinifier.mem (lower (snd (splitext filename))) exts = true
                end
             /\ q = path_join folder filename)
  /\ (forall q, ~ In q (deleted_paths (printed st)) -> files (disk st) q = files d q)
  /\ written (disk st) = written d.
Proof.
  intro st.
  set (ok := fun q : str =>
         files d q <> None
         /\ exists folder subfolders filenames filename,
              In (folder, subfolders, filenames) walk /\ In filename filenames
              /\ contains filename suffix = true
              /\ match extensions with
                 | None => True
                 | Some exts =>
                     ProjectMinifier.mem (lower (snd (splitext filename))) exts = true
                 end
              /\ q = path_join folder filename).
  assert (Hfiles : forall folder filenames,
             (forall f, In f filenames ->
                        exists subs all, In (folder, subs, all) walk /\ In f all) ->
             forall st0, cleaned ok d st0 ->
                         cleaned ok d
                           (fold_left (clean_file lower splitext path_join suffix
                                         extensions folder) filenames st0)).
  { intros folder filenames. induction filenames as [|f l IH]; intros Hall st0 Hst0;
      [exact Hst0|].
    cbn [fold_left]. apply IH; [intros g Hg; apply Hall; right; exact Hg|].
    apply clean_file_cleaned; [|exact Hst0].
    intros Hc He Hex. split; [exact Hex|].
    destruct (Hall f (or_introl eq_refl)) as [subs [all [Hentry Hf]]].
    exists folder, subs, all, f. auto. }
  assert (H : forall part,
             (forall entry, In entry part -> In entry walk) ->
             forall st0, cleaned ok d st0 ->
                         cleaned ok d
                           (fold_left
                              (fun st entry =>
                                 let '(foldername, _, filenames) := entry in
                                 fold_left (clean_file lower splitext path_join suffix
                                              extensions foldername) filenames st)
                              part st0)).
  { induction part as [|[[folder subs] filenames] rest IH]; intros Hpart st0 Hst0;
      [exact Hst0|].
    cbn [fold_left]. apply IH; [intros entry He; apply Hpart; right; exact He|].
    apply Hfiles; [|exact Hst0].
    intros f Hf. exists subs, filenames. split; [apply Hpart; left; reflexivity | exact Hf]. }
  destruct (H walk (fun _ He => He) {| count := 0; disk := d; printed := [] |})
    as [Hcount [Hdel [Hframe Hw]]].
  - unfold cleaned. cbn. repeat split; tauto.
  - fold st in Hcount, Hdel, Hframe, Hw.
    split; [exact Hcount|]. split; [|split; [exact Hframe | exact Hw]].
    intros q Hq. destruct (Hdel q Hq) as [[Hex Hwhere] Hgone]. auto.
Qed.

Lemma contains_empty (s : str) : contains s [] = true.
Proof. destruct s; reflexivity. Qed.

(** X27. With an empty suffix every file name counts as minified: without
    a list of extensions, [delete_minified_files] then tries to delete
    every file of the walk. *)
Theorem delete_minified_files_empty_suffix (walk : list (str * list str * list str))
    (d : filesystem) :
  let st := delete_minified_files lower splitext path_join walk [] None d in
  map (fun m => match m with Deleted p => p | ErrorDeleting p _ => p end) (printed st)
  = flat_map (fun entry => let '(folder, _, filenames) := entry in
                           map (path_join folder) filenames) walk.
Proof.
  unfold delete_minified_files.
  set (path_of := fun m => match m with Deleted p => p | ErrorDeleting p _ => p end).
  assert (Hfiles : forall folder filenames st0,
             map path_of
                 (printed (fold_left (clean_file lower splitext path_join [] None folder)
                                     filenames st0))
             = map path_of (printed st0) ++ map (path_join folder) filenames).
  { intros folder filenames. induction filenames as [|f l IH]; intro st0.
    - cbn. rewrite app_nil_r. reflexivity.
    - cbn [fold_left]. rewrite IH. unfold clean_file. rewrite contains_empty.
      destruct (delete_file (disk st0) (path_join folder f));
        cbn [printed map]; rewrite map_app, <- app_assoc; reflexivity. }
  assert (H : forall (part : list (str * list str * list str)) st0,
             map path_of
                 (printed (fold_left
                             (fun st entry =>
                                let '(foldername, _, filenames) := entry in
                                fold_left (clean_file lower splitext path_join [] None
                                             foldername) filenames st)
                             part st0))
             = map path_of (printed st0)
               ++ flat_map (fun entry => let '(folder, _, filenames) := entry in
                                         map (path_join folder) filenames) part).
  { induction part as [|[[folder subs] filenames] rest IH]; intro st0.
    - cbn. rewrite app_nil_r. reflexivity.
    - cbn [fold_left flat_map]. rewrite IH, Hfiles, <- app_assoc. reflexivity. }
  rewrite H. reflexivity.
Qed.

End CleanProperties.

(** ** The command line *)

(** X28. [parse_list_option] gives no list for [all]; any other value gives
    its comma-separated items, stripped: one item more than there are
    commas (so never an empty list), none with a comma in it, none that
    starts or ends with whitespace. *)
Theorem parse_list_option_items (value : str) :
  match parse_list_option value with
  | None => value = py "all"
  | Some items =>
      value <> py "all"
      /\ length items = S (length (filter (N.eqb COMMA) value))
      /\ Forall (fun item => trimmed item /\ ~ In COMMA item) items
  end.
Proof.
  unfold parse_list_option. destruct (str_eqb value (py "all")) eqn:E.
  - apply str_eqb_eq, E.
  - apply str_eqb_neq in E. split; [exact E|]. split.
    + rewrite length_map. clear E. induction value as [|c s IH]; [reflexivity|].
      cbn [split filter]. destruct (N.eqb_spec c COMMA) as [->|Hne].
      * rewrite N.eqb_refl. cbn [length]. rewrite IH. reflexivity.
      * rewrite (proj2 (N.eqb_neq COMMA c)) by congruence.
        destruct (split COMMA s) as [|l ls] eqn:Es; [exfalso; exact (@split_not_nil _ _ Es)|].
        exact IH.
    + apply Forall_forall. intros item Hitem. apply in_map_iff in Hitem.
      destruct Hitem as [raw [<- Hraw]].
      destruct (strip_spec raw) as [l [r [_ [_ [_ [H1 H2]]]]]].
      split; [split; assumption|]. intro Hin. apply in_strip in Hin.
      pose proof (split_lines_free COMMA value) as Hfree. rewrite Forall_forall in Hfree.
      exact (Hfree raw Hraw Hin).
Qed.

(** ** Comment removal only removes *)

Lemma subsequence_refl (s : str) : subsequence s s.
Proof. induction s; constructor; assumption. Qed.

Lemma subsequence_trans (a b c : str) :
  subsequence a b -> subsequence b c -> subsequence a c.
Proof.
  intros Hab Hbc. revert a Hab.
  induction Hbc as [|x b c Hbc IH|x b c Hbc IH]; intros a Hab.
  - exact Hab.
  - inversion Hab; subst; constructor; apply IH; assumption.
  - constructor. apply IH. exact Hab.
Qed.

Lemma subsequence_length (a b : str) : subsequence a b -> length a <= length b.
Proof. induction 1; simpl; lia. Qed.

(** Substituting the empty text for the matches leaves a subsequence. *)
Lemma subx_empty_template (fl : flags) (r : regex) (s : str) :
  forall skip, subsequence (subx fl r [] s skip) s.
Proof.
  induction s as [|c s IH]; intro skip.
  - cbn [subx]. destruct skip; [|constructor].
    destruct (match_here fl r [] false); [|constructor].
    destruct (match_here fl r [] true); constructor.
  - cbn [subx]. destruct skip as [|n]; [|constructor; apply IH].
    destruct (match_here fl r (c :: s) false) as [m|]; [|constructor; apply IH].
    cbn [expand flat_map app]. destruct (m_len m); [|constructor; apply IH].
    destruct (match_here fl r (c :: s) true); constructor; apply IH.
Qed.

(** X29. Comment removal only takes characters away.  The action holds its
    patterns compiled; whatever they are, the call returns (the replacement
    is the empty text, which refers to no group), and the output is the
    input with some characters left out, in the same order. *)
Theorem comment_removal_only_removes (single multi : option regex) (code : str) :
  exists out,
    apply (CommentRemovalAction single multi) code = Ok out
    /\ subsequence out code
    /\ length out <= length code.
Proof.
  cbn [apply]. unfold CommentRemovalAction_apply.
  assert (Hsub : forall p fl s, exists o, re_sub p [] s fl = Ok o /\ subsequence o s).
  { intros p fl s. exists (subx fl p [] s 0). split; [reflexivity|].
    apply subx_empty_template. }
  assert (H1 : exists o1,
             match multi with
             | Some p => re_sub p [] code RE_DOTALL
             | None => Ok code
             end = Ok o1 /\ subsequence o1 code).
  { destruct multi as [p|]; [apply Hsub | exists code; split; [reflexivity|apply subsequence_refl]]. }
  destruct H1 as [o1 [E1 S1]]. rewrite E1. cbn [bind].
  assert (H2 : exists o2,
             match single with
             | Some p => re_sub p [] o1 RE_MULTILINE
             | None => Ok o1
             end = Ok o2 /\ subsequence o2 o1).
  { destruct single as [p|]; [apply Hsub | exists o1; split; [reflexivity|apply subsequence_refl]]. }
  destruct H2 as [o2 [E2 S2]]. rewrite E2. cbn [bind].
  exists o2. split; [reflexivity|].
  pose proof (subsequence_trans S2 S1) as S. split; [exact S | apply subsequence_length, S].
Qed.

(** ** The minifiers of a registry *)

Lemma dict_set_values (V : Type) (d : list (str * V)) (k : str) (v : V) :
  In v (map snd (dict_set d k v))
  /\ length (dict_set d k v)
     = if existsb (str_eqb k) (map fst d) then length d else S (length d).
Proof.
  induction d as [|[k0 v0] d [IH1 IH2]]; cbn [dict_set map existsb fst].
  - split; [left; reflexivity | reflexivity].
  - destruct (str_eqb k0 k) eqn:E0.
    + apply str_eqb_eq in E0. subst k0. rewrite (proj2 (str_eqb_eq _ _) eq_refl).
      split; [left; reflexivity | reflexivity].
    + rewrite (proj2 (str_eqb_neq k k0)); [|apply str_eqb_neq in E0; congruence].
      cbn [map snd In length orb]. split; [right; exact IH1|].
      rewrite IH2. destruct (existsb (str_eqb k) (map fst d)); reflexivity.
Qed.

(** X30. After a registration the minifier is among [get_all_minifiers];
    the list has one entry more when the name (in lower case) is new, and as
    many as before when it replaces the minifier of that name. *)
Theorem register_then_get_all (lower : str -> str) (self : MinifierRegistry.t)
    (minifier : LanguageMinifier.t) :
  let after := MinifierRegistry.register_minifier lower self minifier in
  In minifier (get_all_minifiers after)
  /\ length (get_all_minifiers after)
     = match MinifierRegistry.get_minifier_by_name lower self
               (LanguageMinifier.name minifier) with
       | Some _ => length (get_all_minifiers self)
       | None => S (length (get_all_minifiers self))
       end.
Proof.
  unfold get_all_minifiers, MinifierRegistry.register_minifier,
    MinifierRegistry.get_minifier_by_name.
  cbn [MinifierRegistry._minifiers]. rewrite !length_map.
  destruct (dict_set_values (MinifierRegistry._minifiers self)
              (lower (LanguageMinifier.name minifier)) minifier) as [H1 H2].
  split; [exact H1|]. rewrite H2.
  generalize (MinifierRegistry._minifiers self) (lower (LanguageMinifier.name minifier)).
  intros d k. induction d as [|[k0 v0] d IH]; cbn [map existsb fst dict_get length];
    [reflexivity|].
  destruct (str_eqb k k0) eqn:E.
  - apply str_eqb_eq in E. subst k0. rewrite (proj2 (str_eqb_eq _ _) eq_refl). reflexivity.
  - rewrite (proj2 (str_eqb_neq k0 k)); [|apply str_eqb_neq in E; congruence].
    cbn [orb]. destruct (existsb (str_eqb k) (map fst d)), (dict_get d k);
      cbn in IH |- *; congruence.
Qed.
